(** * openshift-healthchecker: the check runner (cmd/server/runner.go)

    A shallow embedding of the per-check runner: the script executor
    [runBashScript], the result parser [convertResult], the metric
    lifecycle functions [registerMetricsForCheck],
    [cleanupUnusedDimensions] and [unregisterMetricsForCheck], and one
    iteration of the scheduling loop of [runCheck].

    Go strings are byte sequences and are modelled by [string]; Go maps
    [map[string]string] by [gmap string string]; [float64] by the binary64
    floats of [PrimFloat]; [int64] by [Z] with the wrap-around written
    out. *)

From Stdlib Require Import ZArith Ascii Floats.PrimFloat.
From stdpp Require Import gmap strings list fin_maps.

Local Open Scope string_scope.
Local Open Scope Z_scope.

(** ** Package [strings]

    Every separator that runner.go passes to [strings.Contains],
    [strings.Split] and [strings.SplitN] is a one-byte literal, so the
    separator is an [ascii] here. *)

Module strings.

(** [strings.Index(s, sep)]: offset of the first [sep] in [s]. *)
Fixpoint Index (s : string) (sep : ascii) : option nat :=
  match s with
  | EmptyString => None
  | String c s' =>
      if decide (c = sep) then Some 0%nat else S <$> Index s' sep
  end.

(** [strings.Contains(s, sep)] is [Index(s, sep) >= 0]. *)
Definition Contains (s : string) (sep : ascii) : bool :=
  match Index s sep with Some _ => true | None => false end.

(** The loop of [genSplit]: [lim] is the number of cuts still allowed
    ([None]: no limit).  The result is never empty: its head is the piece
    that starts at the current position. *)
Fixpoint cut (lim : option nat) (sep : ascii) (s : string) : list string :=
  match lim, s with
  | Some O, _ => [s]
  | _, EmptyString => [""]
  | _, String c s' =>
      if decide (c = sep) then "" :: cut (pred <$> lim) sep s'
      else match cut lim sep s' with
           | piece :: rest => String c piece :: rest
           | [] => [String c ""]
           end
  end.

(** [strings.SplitN(s, sep, n)]: [n = 0] gives no substrings, [n < 0] all
    of them, [n > 0] at most [n], the last one being the unsplit rest. *)
Definition SplitN (s : string) (sep : ascii) (n : Z) : list string :=
  if n =? 0 then []
  else if n <? 0 then cut None sep s
  else cut (Some (Z.to_nat (n - 1))) sep s.

(** [strings.Split(s, sep)] is [SplitN(s, sep, -1)]. *)
Definition Split (s : string) (sep : ascii) : list string := SplitN s sep (-1).

(** [strings.Join(elems, sep)], used to write lines down in statements. *)
Fixpoint Join (elems : list string) (sep : ascii) : string :=
  match elems with
  | [] => ""
  | [e] => e
  | e :: rest => e +:+ String sep (Join rest sep)
  end.

End strings.

(** ** Panics, and the state the runner acts on *)

(** What the Go runtime or the metrics library panics with. *)
Inductive PanicValue :=
| IndexOutOfRange (index length : nat)      (* slice index past the end *)
| InterfaceConversion                       (* [x.(T)] on a nil interface *)
| InvalidDescriptor                         (* MustRegister: bad name or label name *)
| AlreadyRegistered (name : string)         (* MustRegister: name taken *)
| InconsistentLabels.                       (* With: label map does not fit the vector *)

Inductive Result (A : Type) :=
| Ok (a : A)
| Panic (p : PanicValue).
Arguments Ok {A} a.
Arguments Panic {A} p.

Definition bindR {A B} (r : Result A) (k : A → Result B) : Result B :=
  match r with Ok a => k a | Panic p => Panic p end.

(** [s[i]] on a slice: a run-time panic when [i] is out of range. *)
Definition index {A} (s : list A) (i : nat) : Result A :=
  match s !! i with
  | Some x => Ok x
  | None => Panic (IndexOutOfRange i (length s))
  end.

(** A label-set, [map[string]string].  Every map the runner handles comes
    from [make] in [convertResult], so none is nil and [reflect.DeepEqual]
    on two of them is equality of their key/value pairs. *)
Abbreviation Labels := (gmap string string).

Definition DeepEqual (a b : Labels) : bool := bool_decide (a = b).

(** [*prometheus.GaugeVec]: the descriptor (name, help, label names) and
    the child gauges, one per label-value combination. *)
Record GaugeVec := mkGaugeVec {
  fqName : string;
  help : string;
  variableLabels : list string;
  metrics : gmap Labels float
}.

Definition setMetrics (v : GaugeVec) (m : gmap Labels float) : GaugeVec :=
  mkGaugeVec (fqName v) (help v) (variableLabels v) m.

(** Calls to logrus: level, format string and arguments, unformatted. *)
Inductive Level := TraceLevel | DebugLevel | InfoLevel | WarnLevel.

Inductive Arg :=
| AStr (s : string)
| AInt (n : Z)
| AFloat (f : float)
| ALabels (l : Labels).

Record Entry := mkEntry { level : Level; format : string; args : list Arg }.

Definition isWarn (e : Entry) : bool :=
  match level e with WarnLevel => true | _ => false end.

(** The world outside one [Check]: the [GaugeVec] objects allocated so far
    (a pointer is an index into [heap]), the collectors registered with the
    default registry, in registration order, and the log. *)
Record World := mkWorld {
  heap : list GaugeVec;
  registry : list nat;
  logs : list Entry
}.

(** The [Check] struct is declared outside runner.go; these are the
    fields runner.go reads and writes, with the types it uses them at
    ([stoppedchan] only synchronises shutdown and carries no data).
    [metric] is an [interface{}] that is nil or holds a [*GaugeVec]. *)
Record Check := mkCheck {
  Name : string;
  Help : string;
  File : string;
  Interval : Z;
  MetricType : string;
  Active : bool;
  nextrun : Z;
  resultLast : list Labels;
  resultCurrent : list Labels;
  metric : option nat
}.

Definition setResults (c : Check) (last current : list Labels) : Check :=
  mkCheck (Name c) (Help c) (File c) (Interval c) (MetricType c) (Active c)
          (nextrun c) last current (metric c).

Definition setMetric (c : Check) (m : option nat) : Check :=
  mkCheck (Name c) (Help c) (File c) (Interval c) (MetricType c) (Active c)
          (nextrun c) (resultLast c) (resultCurrent c) m.

Definition setNextrun (c : Check) (n : Z) : Check :=
  mkCheck (Name c) (Help c) (File c) (Interval c) (MetricType c) (Active c)
          n (resultLast c) (resultCurrent c) (metric c).

(** Conversion to [int64]: two's-complement wrap-around. *)
Definition int64 (z : Z) : Z := (z + 2 ^ 63) mod 2 ^ 64 - 2 ^ 63.

(** What [cmd.Run()] leaves behind: both buffers, and the error ([None]
    for exit status 0; otherwise the text of the launch or exit error). *)
Record Process := mkProcess {
  stdout : string;
  stderr : string;
  runErr : option string
}.

(** ** The monad of the runner: a world threaded through, and panics *)

Definition M (A : Type) : Type := World → Result A * World.

Definition ret {A} (a : A) : M A := λ w, (Ok a, w).

Definition bind {A B} (m : M A) (k : A → M B) : M B :=
  λ w, match m w with
       | (Ok a, w') => k a w'
       | (Panic p, w') => (Panic p, w')
       end.

Definition lift {A} (r : Result A) : M A := λ w, (r, w).

Notation "'do' x <- m ; k" := (bind m (λ x, k))
  (at level 10, x name, m at level 100, k at level 200).
Notation "'do' ' p <- m ; k" := (bind m (λ x, match x with p => k end))
  (at level 10, p pattern, m at level 100, k at level 200).
Notation "m ;; k" := (bind m (λ _, k))
  (at level 100, k at level 200, right associativity).
Notation "'try' x <- r ; k" := (bindR r (λ x, k))
  (at level 10, x name, r at level 100, k at level 200).

(** [for _, x := range xs { body }] *)
Fixpoint forRange {A} (xs : list A) (body : A → M unit) : M unit :=
  match xs with
  | [] => ret tt
  | x :: xs' => body x ;; forRange xs' body
  end.

(** The same loop when the body updates a local the loop carries along. *)
Fixpoint forRangeS {A S} (xs : list A) (body : S → A → M S) (s : S) : M S :=
  match xs with
  | [] => ret s
  | x :: xs' => do s' <- body s x; forRangeS xs' body s'
  end.

Definition logf (l : Level) (fmt : string) (a : list Arg) : M unit :=
  λ w, (Ok tt, mkWorld (heap w) (registry w) (logs w ++ [mkEntry l fmt a])).

(** ** What the libraries decide

    [strconv.ParseFloat(s, 64)] with the error it returns ([None] for
    nil), the descriptor validation of [prometheus.NewDesc] (metric name
    and label names), and [utf8.ValidString], which the metrics library
    applies to label values. *)
Inductive NumError := ErrSyntax | ErrRange.

Class Libraries := {
  ParseFloat : string → float * option NumError;
  validDesc : string → list string → bool;
  ValidString : string → bool
}.

Section Runner.
Context {L : Libraries}.

(** ** The metrics library, as far as the runner calls it *)

(** [prometheus.NewGaugeVec(GaugeOpts{Name, Help}, labelNames)]: a new
    object with no child gauge. *)
Definition NewGaugeVec (name hlp : string) (labelNames : list string) : M nat :=
  λ w, (Ok (length (heap w)),
        mkWorld (heap w ++ [mkGaugeVec name hlp labelNames ∅]) (registry w) (logs w)).

(** The type assertion of [x] to a pointer to a [GaugeVec], followed by
    the dereference. *)
Definition asGaugeVec (x : option nat) : M (nat * GaugeVec) :=
  λ w, match x with
       | None => (Panic InterfaceConversion, w)
       | Some h =>
           match heap w !! h with
           | Some v => (Ok (h, v), w)
           | None => (Panic InterfaceConversion, w)
           end
       end.

(** The name under which the collector at [h] is known to the registry. *)
Definition nameOf (w : World) (h : nat) : option string :=
  fqName <$> heap w !! h.

Definition nameRegistered (w : World) (name : string) : bool :=
  existsb (λ h, bool_decide (nameOf w h = Some name)) (registry w).

(** [prometheus.MustRegister(c)]: panics on an invalid descriptor and
    when a collector of the same fully-qualified name is registered. *)
Definition MustRegister (x : option nat) : M unit :=
  do '(h, v) <- asGaugeVec x;
  λ w, if negb (validDesc (fqName v) (variableLabels v))
       then (Panic InvalidDescriptor, w)
       else if nameRegistered w (fqName v)
       then (Panic (AlreadyRegistered (fqName v)), w)
       else (Ok tt, mkWorld (heap w) (registry w ++ [h]) (logs w)).

(** [prometheus.Unregister(c)]: the registry finds the collector by its
    descriptor, that is by name; reports whether one was removed. *)
Definition Unregister (x : option nat) : M bool :=
  do '(h, v) <- asGaugeVec x;
  λ w, (Ok (nameRegistered w (fqName v)),
        mkWorld (heap w)
                (filter (λ h', nameOf w h' ≠ Some (fqName v)) (registry w))
                (logs w)).

(** The library's check of a label map against a vector: as many labels
    as the vector has names, every value valid UTF-8, every name of the
    vector present. *)
Definition labelsFit (v : GaugeVec) (labels : Labels) : bool :=
  bool_decide (size labels = length (variableLabels v))
  && bool_decide (map_Forall (λ _ val, ValidString val = true) labels)
  && forallb (λ name, bool_decide (is_Some (labels !! name))) (variableLabels v).

(** [vec.With(labels).Set(value)]: [With] panics when the labels do not
    fit; otherwise the child for [labels] is created if absent and set. *)
Definition WithSet (x : option nat) (labels : Labels) (value : float) : M unit :=
  do '(h, v) <- asGaugeVec x;
  λ w, if labelsFit v labels
       then (Ok tt, mkWorld (<[h := setMetrics v (<[labels := value]> (metrics v))]> (heap w))
                            (registry w) (logs w))
       else (Panic InconsistentLabels, w).

(** [vec.Delete(labels)]: false when the labels do not fit or no child
    has them; otherwise the child is removed. *)
Definition Delete (x : option nat) (labels : Labels) : M bool :=
  do '(h, v) <- asGaugeVec x;
  λ w, if labelsFit v labels && bool_decide (is_Some (metrics v !! labels))
       then (Ok true, mkWorld (<[h := setMetrics v (delete labels (metrics v))]> (heap w))
                              (registry w) (logs w))
       else (Ok false, w).

(** ** runner.go *)

(** [convertMapKeysToSlice]: the keys in the order the map is ranged
    over.  Go leaves that order unspecified; statements about the result
    use it up to permutation only. *)
Definition convertMapKeysToSlice (value : Labels) : list string :=
  (map_to_list value).*1.

(** The body of the loop over [splitLabels] in [convertResult]: the label
    map built so far, or the panic that ended the loop. *)
Definition addLabel (acc : Result Labels) (label : string) : Result Labels :=
  try labels <- acc;
  let splitLabel := strings.SplitN label "=" 2 in
  try k <- index splitLabel 0;
  try v <- index splitLabel 1;
  Ok (<[k := v]> labels).

(** [convertResult] *)
Definition convertResult (result : string) : Result (float * Labels) :=
  if strings.Contains result "|" then
    let splitResult := strings.Split result "|" in
    try value <- index splitResult 0;
    try labelPart <- index splitResult 1;
    let splitLabels := strings.Split labelPart "," in
    try labels <- foldl addLabel (Ok ∅) splitLabels;
    Ok ((ParseFloat value).1, labels)
  else
    Ok ((ParseFloat result).1, ∅).

(** [runBashScript]; [p] is what running [determineBash() check.File]
    produced. *)
Definition runBashScript (check : Check) (p : Process) : M (string * option string) :=
  logf DebugLevel "Execute shell script: %s" [AStr (File check)] ;;
  let scriptResult := stdout p in
  let scriptError := stderr p in
  match runErr p with
  | Some err =>
      if negb (String.eqb scriptResult "") then
        logf InfoLevel "Script %s failed with output: %v" [AStr (File check); AStr scriptResult] ;;
        ret ("", Some ("Script failed with error: " +:+ scriptResult))
      else if negb (String.eqb scriptError "") then
        logf InfoLevel "Script %s failed with error: %v" [AStr (File check); AStr scriptError] ;;
        ret ("", Some ("Script failed with error: " +:+ scriptError))
      else
        logf InfoLevel "Script %s finished with execution error: %v" [AStr (File check); AStr err] ;;
        ret ("", Some ("Script failed with error: " +:+ err))
  | None => ret (scriptResult, None)
  end.

(** [registerMetricsForCheck] *)
Definition registerMetricsForCheck (check : Check) (value : float) (labels : Labels)
  : M Check :=
  let check := setResults check (resultLast check) (resultCurrent check ++ [labels]) in
  do check <-
    (if String.eqb (MetricType check) "Gauge" then
       do check <-
         (match metric check with
          | None =>
              do h <- NewGaugeVec (Name check) (Help check) (convertMapKeysToSlice labels);
              let check := setMetric check (Some h) in
              MustRegister (metric check) ;;
              ret check
          | Some _ => ret check
          end);
       WithSet (metric check) labels value ;;
       ret check
     else if String.eqb (MetricType check) "Counter" then
       logf WarnLevel "Metric type Counter not implemented yet!" [] ;; ret check
     else if String.eqb (MetricType check) "Histogram" then
       logf WarnLevel "Metric type Counter not implemented yet!" [] ;; ret check
     else if String.eqb (MetricType check) "Summary" then
       logf WarnLevel "Metric type Counter not implemented yet!" [] ;; ret check
     else
       logf WarnLevel "Not able to register unknown metric type %s" [AStr (MetricType check)] ;;
       ret (setMetric check None));
  logf TraceLevel "Result from check %s -> value: %f, labels: %v"
       [AStr (Name check); AFloat value; ALabels labels] ;;
  ret check.

(** The inner loop of [cleanupUnusedDimensions]: [remove] starts true and
    is cleared by every current label-set deeply equal to [labelsLast]. *)
Definition stale (current : list Labels) (labelsLast : Labels) : bool :=
  foldl (λ remove labelCurrent,
           if DeepEqual labelsLast labelCurrent then false else remove)
        true current.

(** [cleanupUnusedDimensions]; it reads the check and changes the sink. *)
Definition cleanupUnusedDimensions (check : Check) : M unit :=
  logf TraceLevel "Check %s cleaning up -> size of resultLast : %d, size of resultCurrent: %d"
       [AStr (Name check); AInt (Z.of_nat (length (resultLast check)));
        AInt (Z.of_nat (length (resultCurrent check)))] ;;
  if (0 <? length (resultCurrent check))%nat then
    forRange (resultLast check) (λ labelsLast,
      if stale (resultCurrent check) labelsLast then
        logf DebugLevel "Check %s remove stale metric vector with labels %s"
             [AStr (Name check); ALabels labelsLast] ;;
        if String.eqb (MetricType check) "Gauge" then
          do deleted <- Delete (metric check) labelsLast;
          if negb deleted then
            logf WarnLevel "Failed to delete stale metric vector with label %s from check %s"
                 [ALabels labelsLast; AStr (Name check)]
          else ret tt
        else ret tt
      else ret tt)
  else ret tt.

(** [unregisterMetricsForCheck] *)
Definition unregisterMetricsForCheck (check : Check) : M Check :=
  match metric check with
  | Some _ =>
      (if String.eqb (MetricType check) "Gauge" then
         do _ <- Unregister (metric check); ret tt
       else if String.eqb (MetricType check) "Counter" then
         logf WarnLevel "Metric type Counter not implemented yet!" []
       else if String.eqb (MetricType check) "Histogram" then
         logf WarnLevel "Metric type Counter not implemented yet!" []
       else if String.eqb (MetricType check) "Summary" then
         logf WarnLevel "Metric type Counter not implemented yet!" []
       else
         logf WarnLevel "Not able to unregister unknown metric type %s" [AStr (MetricType check)]) ;;
      let check := setMetric check None in
      logf DebugLevel "Unregistered metrics for check %s" [AStr (Name check)] ;;
      ret check
  | None => ret check
  end.

(** One pass through the [default:] branch of the loop of [runCheck], at
    wall-clock second [now]; [p] is what the script does if it is run. *)
Definition tick (now : Z) (p : Process) (check : Check) : M Check :=
  if now >? nextrun check then
    logf DebugLevel "Running check %s" [AStr (Name check)] ;;
    let check := setResults check (resultCurrent check) [] in
    do '(result, err) <- runBashScript check p;
    do check <-
      (match err with
       | None =>
           let resultLine := strings.Split result "010" in
           forRangeS resultLine (λ check line,
             if negb (String.eqb line "") then
               do '(value, labels) <- lift (convertResult line);
               registerMetricsForCheck check value labels
             else ret check) check
       | Some e =>
           logf WarnLevel "Check %s failed with error: %s" [AStr (Name check); AStr e] ;;
           ret check
       end);
    cleanupUnusedDimensions check ;;
    let check := setNextrun check (int64 (nextrun check + int64 (Interval check))) in
    logf DebugLevel "Finished check %s and schedule next run for %s"
         [AStr (Name check); AInt (nextrun check)] ;;
    ret check
  else ret check.

(** [runCheck], for a run that goes through the [default:] branch once
    per element of [passes] and then finds the stop channel closed: the
    deferred teardown runs on return. *)
Definition runCheck (check : Check) (passes : list (Z * Process)) : M Check :=
  do check <- forRangeS passes (λ check '(now, p), tick now p check) check;
  logf DebugLevel "Stopping check %s" [AStr (Name check)] ;;
  unregisterMetricsForCheck check.

End Runner.

(** ** Well-formed script output

    A label name holds none of the three separators; a label value may
    hold [=], since an item is split at its first [=] only. *)
Definition plainKey (k : string) : Prop :=
  strings.Contains k "|" = false ∧ strings.Contains k "," = false
  ∧ strings.Contains k "=" = false.

Definition plainValue (v : string) : Prop :=
  strings.Contains v "|" = false ∧ strings.Contains v "," = false.

(** ** Invariants of the sink *)

(** The collectors registered under [name]. *)
Definition registeredFor (w : World) (name : string) : list nat :=
  filter (λ h, nameOf w h = Some name) (registry w).

(** What the registry maintains: every registered collector is allocated,
    and no two of them have the same name. *)
Definition registryOK (w : World) : Prop :=
  Forall (λ h, is_Some (heap w !! h)) (registry w)
  ∧ NoDup (nameOf w <$> registry w).

(** What a vector maintains: every child was created by [With] from
    labels that fit. *)
Definition childrenFit {L : Libraries} (v : GaugeVec) : Prop :=
  map_Forall (λ labels _, labelsFit v labels = true) (metrics v).

(** The lines of a script's output that the loop of [runCheck] converts. *)
Definition observations (result : string) : list string :=
  filter (λ line, line ≠ "") (strings.Split result "010").

Definition countWarn (w : World) : nat := length (filter (λ e, isWarn e = true) (logs w)).

(** The sink is the heap and the registry; the log is not part of it. *)
Definition sameSink (w w' : World) : Prop :=
  heap w' = heap w ∧ registry w' = registry w.

(** ** Relations between states, and outcomes of a computation *)

(** [w'] is [w] with the same sink and [n] more warnings in the log. *)
Definition warned (n : nat) (w w' : World) : Prop :=
  sameSink w w' ∧ countWarn w' = (countWarn w + n)%nat.

(** The fields of a check that only the end of a pass may change. *)
Definition sameConfig (c c' : Check) : Prop :=
  Name c' = Name c ∧ Help c' = Help c ∧ File c' = File c
  ∧ Interval c' = Interval c ∧ MetricType c' = MetricType c
  ∧ Active c' = Active c ∧ nextrun c' = nextrun c.

(** [wp m w Q]: running [m] from [w] ends in an outcome and a world that
    satisfy [Q]. *)
Definition wp {A} (m : M A) (w : World) (Q : Result A → World → Prop) : Prop :=
  Q (m w).1 (m w).2.

(** The postcondition of a loop with invariant [I], when a panic may leave
    the world anywhere in [E]. *)
Definition loopPost {S} (I : S → World → Prop) (E : World → Prop)
  : Result S → World → Prop :=
  λ r w, match r with Ok s => I s w | Panic _ => E w end.

(** ** An instance of the library parameters, for evaluating examples

    [demoParseFloat] agrees with [strconv.ParseFloat] on unsigned decimal
    literals [digits] or [digits.digits] of at most 15 bytes, where the
    quotient below is the correctly rounded value, and reports a syntax
    error on every other string.  Descriptors and label values are all
    taken to be valid. *)

Definition digit (c : ascii) : option Z :=
  let n := Z.of_N (N_of_ascii c) in
  if (48 <=? n) && (n <=? 57) then Some (n - 48) else None.

Fixpoint digits (s : string) (acc : Z) : option Z :=
  match s with
  | EmptyString => Some acc
  | String c s' =>
      match digit c with
      | Some d => digits s' (10 * acc + d)
      | None => None
      end
  end.

Fixpoint floatOfPos (p : positive) : float :=
  match p with
  | xH => 1%float
  | xO p' => (2 * floatOfPos p')%float
  | xI p' => (2 * floatOfPos p' + 1)%float
  end.

Definition floatOfZ (z : Z) : float :=
  match z with
  | Z0 => 0%float
  | Zpos p => floatOfPos p
  | Zneg p => (- floatOfPos p)%float
  end.

Definition demoParseFloat (s : string) : float * option NumError :=
  let '(ip, fp) := match strings.SplitN s "." 2 with
                   | [a; b] => (a, Some b)
                   | _ => (s, None)
                   end in
  if (String.length s <=? 15)%nat && negb (String.eqb ip "") then
    match digits ip 0, fp with
    | Some n, None => (floatOfZ n, None)
    | Some n, Some f =>
        if String.eqb f "" then (0%float, Some ErrSyntax) else
        match digits f n with
        | Some m => ((floatOfZ m / floatOfZ (10 ^ Z.of_nat (String.length f)))%float, None)
        | None => (0%float, Some ErrSyntax)
        end
    | None, _ => (0%float, Some ErrSyntax)
    end
  else (0%float, Some ErrSyntax).

Definition demo : Libraries :=
  {| ParseFloat := demoParseFloat;
     validDesc := λ _ _, true;
     ValidString := λ _, true |}.

(** ** The check and the sink the examples run on *)

Definition sda : Labels := {[ "disk" := "sda" ]}.
Definition sdb : Labels := {[ "disk" := "sdb" ]}.

(** A vector with one child per disk, registered, in an otherwise empty
    world. *)
Definition diskVec : GaugeVec :=
  mkGaugeVec "disk" "usage" ["disk"] (<[sdb := 2%float]> {[ sda := 1%float ]}).

Definition diskWorld : World := mkWorld [diskVec] [0%nat] [].

Definition emptyWorld : World := mkWorld [] [] [].

(** What the disk script prints: one line per disk. *)
Definition diskOutput : string :=
  strings.Join ["1.5|disk=sda"; "2.5|disk=sdb"; ""] "010".

(** The check behind it, with the label-sets of the last and the current
    run and its handle left open. *)
Definition diskCheck (kind : string) (interval next : Z)
    (last current : list Labels) (m : option nat) : Check :=
  mkCheck "disk" "usage" "/checks/disk.sh" interval kind true next last current m.

(** ** Children of a vector *)

(** The vector at [h] has a child gauge for the label-set [l]. *)
Definition hasChild (w : World) (h : nat) (l : Labels) : Prop :=
  ∃ v, heap w !! h = Some v ∧ is_Some (metrics v !! l).

(** From [w] to [w'] no vector is lost, only the vector at [own] is
    changed, and no vector loses a child whose label-set is outside
    [dead]. *)
Definition keeps (own : option nat) (dead : Labels → Prop) (w w' : World) : Prop :=
  (length (heap w) ≤ length (heap w'))%nat
  ∧ (∀ h v, heap w !! h = Some v → own ≠ Some h → heap w' !! h = Some v)
  ∧ (∀ h l, hasChild w h l → ¬ dead l → hasChild w' h l).

(** * Properties *)

(** ** Package [strings] on examples *)

Example Split_ex1 : strings.Split "3.5|disk=sda,mount=/" "|" = ["3.5"; "disk=sda,mount=/"].
Proof. reflexivity. Qed.
Example Split_ex2 : strings.Split "" "," = [""].
Proof. reflexivity. Qed.
Example Split_ex3 : strings.Split "a||b|" "|" = ["a"; ""; "b"; ""].
Proof. reflexivity. Qed.
Example SplitN_ex1 : strings.SplitN "k=a=b" "=" 2 = ["k"; "a=b"].
Proof. reflexivity. Qed.
Example SplitN_ex2 : strings.SplitN "k" "=" 2 = ["k"].
Proof. reflexivity. Qed.
Example SplitN_ex3 : strings.SplitN "a=b=c" "=" 1 = ["a=b=c"].
Proof. reflexivity. Qed.

(** ** Splitting *)

Section Splitting.
Import strings.

Lemma Contains_cons a s c :
  Contains (String a s) c = bool_decide (a = c) || Contains s c.
Proof.
  unfold Contains. simpl. case_decide.
  - by rewrite bool_decide_eq_true_2.
  - rewrite bool_decide_eq_false_2 by done. by destruct (Index s c).
Qed.

Lemma Contains_app s t c :
  Contains (s +:+ t) c = Contains s c || Contains t c.
Proof.
  induction s as [|a s IH]; [done|].
  change (String a s +:+ t) with (String a (s +:+ t)).
  rewrite !Contains_cons, IH. by rewrite orb_assoc.
Qed.

Lemma cut_plain lim sep s : Contains s sep = false → cut lim sep s = [s].
Proof.
  revert lim. induction s as [|a s IH]; intros lim Hs.
  - by destruct lim as [[|?]|].
  - rewrite Contains_cons in Hs. apply orb_false_iff in Hs as [Ha Hs].
    apply bool_decide_eq_false in Ha.
    destruct lim as [[|n]|]; [done| |]; simpl;
      (case_decide; [done|]); by rewrite IH.
Qed.

Lemma cut_first lim sep s t :
  Contains s sep = false → lim ≠ Some 0%nat →
  cut lim sep (s +:+ String sep t) = s :: cut (pred <$> lim) sep t.
Proof.
  intros Hs Hlim. induction s as [|a s IH].
  - destruct lim as [[|n]|]; [done| |]; simpl; by case_decide.
  - rewrite Contains_cons in Hs. apply orb_false_iff in Hs as [Ha Hs].
    apply bool_decide_eq_false in Ha.
    change (String a s +:+ String sep t) with (String a (s +:+ String sep t)).
    destruct lim as [[|n]|]; [done| |]; simpl;
      (case_decide; [done|]); by rewrite IH.
Qed.

Lemma Split_plain s sep : Contains s sep = false → Split s sep = [s].
Proof. apply cut_plain. Qed.

Lemma Split_first s t sep :
  Contains s sep = false → Split (s +:+ String sep t) sep = s :: Split t sep.
Proof. intros. unfold Split, SplitN. simpl. by apply cut_first. Qed.

Lemma SplitN2_first s t sep :
  Contains s sep = false → SplitN (s +:+ String sep t) sep 2 = [s; t].
Proof.
  intros. unfold SplitN. simpl. rewrite cut_first by done. simpl.
  by destruct t.
Qed.

Lemma SplitN2_plain s sep : Contains s sep = false → SplitN s sep 2 = [s].
Proof. apply cut_plain. Qed.

Lemma Contains_Join items sep c :
  c ≠ sep → Forall (λ e, Contains e c = false) items →
  Contains (Join items sep) c = false.
Proof.
  intros Hc. induction 1 as [|e items He Hitems IH]; [done|].
  destruct items as [|e' items]; [done|].
  change (Join (e :: e' :: items) sep) with (e +:+ String sep (Join (e' :: items) sep)).
  rewrite Contains_app, Contains_cons, He, IH.
  by rewrite bool_decide_eq_false_2.
Qed.

Lemma Split_Join items sep :
  items ≠ [] → Forall (λ e, Contains e sep = false) items →
  Split (Join items sep) sep = items.
Proof.
  intros Hne Hall. induction Hall as [|e items He Hitems IH]; [done|].
  destruct items as [|e' items]; [by apply Split_plain|].
  change (Join (e :: e' :: items) sep) with (e +:+ String sep (Join (e' :: items) sep)).
  rewrite Split_first by done. f_equal. by apply IH.
Qed.

End Splitting.

(** ** The result parser *)

Section Parser.
Context {L : Libraries}.
Import strings.

Lemma Contains_item k v c :
  Contains (k +:+ "=" +:+ v) c
  = Contains k c || (bool_decide ("="%char = c) || Contains v c).
Proof.
  change (k +:+ "=" +:+ v) with (k +:+ String "=" v).
  by rewrite Contains_app, Contains_cons.
Qed.

Lemma addLabel_item labels k v :
  Contains k "=" = false →
  addLabel (Ok labels) (k +:+ "=" +:+ v) = Ok (<[k := v]> labels).
Proof.
  intros Hk. unfold addLabel. simpl.
  change (k +:+ "=" +:+ v) with (k +:+ String "=" v).
  by rewrite SplitN2_first.
Qed.

Lemma addLabel_no_equals acc label :
  Contains label "=" = false → ∃ p, addLabel acc label = Panic p.
Proof.
  intros Hl. unfold addLabel. destruct acc as [labels|p]; simpl; [|by eexists].
  rewrite SplitN2_plain by done. simpl. by eexists.
Qed.

Lemma foldl_addLabel_Panic p items : foldl addLabel (Panic p) items = Panic p.
Proof. by induction items. Qed.

(** A line that holds no [|] is the number, with no label. *)
Lemma convertResult_bare line :
  Contains line "|" = false → convertResult line = Ok ((ParseFloat line).1, ∅).
Proof. intros Hl. unfold convertResult. by rewrite Hl. Qed.

(** A line with one [|]: the number is the text before it, the labels
    come from the text after it. *)
Lemma convertResult_one_bar a b :
  Contains a "|" = false → Contains b "|" = false →
  convertResult (a +:+ "|" +:+ b)
  = (try labels <- foldl addLabel (Ok ∅) (Split b ","); Ok ((ParseFloat a).1, labels)).
Proof.
  intros Ha Hb. unfold convertResult.
  change (a +:+ "|" +:+ b) with (a +:+ String "|" b).
  rewrite Contains_app, Contains_cons, bool_decide_eq_true_2, orb_true_r by done.
  by rewrite Split_first, Split_plain.
Qed.

(** C2. A well-formed line [v|k1=v1,k2=v2], with [v] a number that
    [ParseFloat] accepts, converts to that number and the label-set
    {k1: v1, k2: v2}; the number alone converts to itself with the empty
    label-set.  (A string that [strconv.ParseFloat] accepts holds no [|].) *)
Theorem convertResult_wellformed (v k1 v1 k2 v2 : string) (f : float) :
  ParseFloat v = (f, None) → Contains v "|" = false →
  plainKey k1 → plainValue v1 → plainKey k2 → plainValue v2 →
  convertResult (v +:+ "|" +:+ (k1 +:+ "=" +:+ v1) +:+ "," +:+ (k2 +:+ "=" +:+ v2))
  = Ok (f, <[k2 := v2]> (<[k1 := v1]> ∅))
  ∧ convertResult v = Ok (f, ∅).
Proof.
  intros Hf Hv (Hk1b & Hk1c & Hk1e) (Hv1b & Hv1c) (Hk2b & Hk2c & Hk2e) (Hv2b & Hv2c).
  split; [|by rewrite convertResult_bare, Hf].
  set (items := [k1 +:+ "=" +:+ v1; k2 +:+ "=" +:+ v2]).
  assert (∀ c : ascii, c ≠ "="%char → Contains k1 c = false → Contains v1 c = false →
            Contains k2 c = false → Contains v2 c = false →
            Forall (λ e, Contains e c = false) items) as Hitems.
  { intros c Hc Hk1 Hv1 Hk2 Hv2.
    unfold items. apply Forall_cons_2; [|apply Forall_cons_2; [|apply Forall_nil_2]];
      rewrite Contains_item, bool_decide_eq_false_2 by done;
      by (rewrite Hk1, Hv1 || rewrite Hk2, Hv2). }
  change (v +:+ "|" +:+ (k1 +:+ "=" +:+ v1) +:+ "," +:+ (k2 +:+ "=" +:+ v2))
    with (v +:+ "|" +:+ Join items ",").
  rewrite convertResult_one_bar; [|done|].
  - rewrite Split_Join; [|done|by apply Hitems].
    unfold items. cbn [foldl]. rewrite !addLabel_item by done. simpl. by rewrite Hf.
  - apply Contains_Join; [done|by apply Hitems].
Qed.

(** An item is accepted exactly when it holds a [=]. *)
Lemma Contains_true_split s sep :
  Contains s sep = true →
  ∃ k v, s = k +:+ String sep v ∧ Contains k sep = false.
Proof.
  induction s as [|c s IH]; [done|]. rewrite Contains_cons.
  destruct (decide (c = sep)) as [->|Hc].
  - intros _. by exists "", s.
  - rewrite bool_decide_eq_false_2 by done. simpl. intros Hs.
    destruct (IH Hs) as (k & v & -> & Hk). exists (String c k), v. split; [done|].
    by rewrite Contains_cons, bool_decide_eq_false_2, Hk.
Qed.

Lemma addLabel_Ok_iff labels label :
  (∃ labels', addLabel (Ok labels) label = Ok labels') ↔ Contains label "=" = true.
Proof.
  split.
  - intros [labels' Hok]. destruct (Contains label "=") eqn:Hl; [done|].
    destruct (addLabel_no_equals (Ok labels) label Hl) as [p Hp]. congruence.
  - intros Hl. destruct (Contains_true_split _ _ Hl) as (k & v & -> & Hk).
    exists (<[k := v]> labels). by apply addLabel_item.
Qed.

Lemma foldl_addLabel_Ok_iff labels items :
  (∃ labels', foldl addLabel (Ok labels) items = Ok labels')
  ↔ Forall (λ item, Contains item "=" = true) items.
Proof.
  revert labels. induction items as [|item items IH]; intros labels; cbn [foldl].
  - split; [by constructor | by eexists].
  - rewrite Forall_cons. destruct (Contains item "=") eqn:Hitem.
    + destruct (proj2 (addLabel_Ok_iff labels item) Hitem) as [labels1 ->].
      rewrite IH. split; [by split | by intros [_ ?]].
    + destruct (addLabel_no_equals (Ok labels) item Hitem) as [p ->].
      rewrite foldl_addLabel_Panic. split; [by intros [? ?] | by intros [? _]].
Qed.

(** Where [convertResult] returns: on a line without [|] always, on a
    line [a|b] exactly when every comma-separated item of [b] holds a
    [=]; everywhere else it panics on [splitLabel[1]]. *)
Lemma convertResult_Ok_iff a b :
  Contains a "|" = false → Contains b "|" = false →
  (∃ r, convertResult (a +:+ "|" +:+ b) = Ok r)
  ↔ Forall (λ item, Contains item "=" = true) (Split b ",").
Proof.
  intros Ha Hb. rewrite convertResult_one_bar by done.
  rewrite <- (foldl_addLabel_Ok_iff ∅). split.
  - intros [r Hr]. destruct (foldl addLabel (Ok ∅) (Split b ",")); [by eexists|done].
  - intros [labels ->]. by eexists.
Qed.

(** The value returned is what [ParseFloat] gives for the text before the
    first [|], its error dropped: 0 after a syntax error. *)
Lemma convertResult_value line f labels :
  convertResult line = Ok (f, labels) →
  ∃ value, Split line "|" !! 0%nat = Some value ∧ f = (ParseFloat value).1.
Proof.
  unfold convertResult. destruct (Contains line "|") eqn:Hbar.
  - destruct (Split line "|") as [|value [|labelPart rest]]; [done..|]. simpl.
    destruct (foldl addLabel _ _); [|done]. simpl. intros [= <- <-]. by exists value.
  - intros [= <- <-]. exists line. by rewrite Split_plain.
Qed.

(** C3. [convertResult] is not total on non-empty lines: an item without
    [=] makes [strings.SplitN] return one element, and [splitLabel[1]]
    panics.  (An item with several [=] is split at the first one only and
    is accepted, see [addLabel_item].) *)
Theorem convertResult_item_without_equals_panics :
  convertResult "1|a" = Panic (IndexOutOfRange 1 1).
Proof. reflexivity. Qed.

(** C5. A line whose number does not parse and whose label part has an
    item without [=] does not yield value 0 with labels: it panics before
    [ParseFloat] is reached. *)
Theorem convertResult_unparsable_number_panics :
  convertResult "x|y" = Panic (IndexOutOfRange 1 1).
Proof. reflexivity. Qed.

(** C10. On a line with two or more [|], the number is the text before the
    first [|] and the labels come from the text between the first and the
    second; whatever follows the second [|] has no effect on the result. *)
Theorem convertResult_two_bars (a b c : string) :
  Contains a "|" = false → Contains b "|" = false →
  convertResult (a +:+ "|" +:+ b +:+ "|" +:+ c)
  = (try labels <- foldl addLabel (Ok ∅) (Split b ","); Ok ((ParseFloat a).1, labels))
  ∧ convertResult (a +:+ "|" +:+ b +:+ "|" +:+ c) = convertResult (a +:+ "|" +:+ b).
Proof.
  intros Ha Hb. rewrite (convertResult_one_bar a b) by done.
  enough (convertResult (a +:+ "|" +:+ b +:+ "|" +:+ c)
          = (try labels <- foldl addLabel (Ok ∅) (Split b ","); Ok ((ParseFloat a).1, labels)))
    by done.
  unfold convertResult.
  change (a +:+ "|" +:+ b +:+ "|" +:+ c) with (a +:+ String "|" (b +:+ String "|" c)).
  rewrite Contains_app, Contains_cons, bool_decide_eq_true_2, orb_true_r by done.
  by rewrite !Split_first.
Qed.

End Parser.

(** Scenario 1 and 2 of the specification. *)
Lemma convertResult_wellformed_witness :
  convertResult (L := demo) "3.5|disk=sda,mount=/"
  = Ok (3.5%float, <[ "mount" := "/" ]> (<[ "disk" := "sda" ]> ∅))
  ∧ convertResult (L := demo) "3.5" = Ok (3.5%float, ∅).
Proof.
  apply (convertResult_wellformed (L := demo) "3.5" "disk" "sda" "mount" "/" 3.5%float);
    repeat split; reflexivity.
Defined.


Lemma convertResult_two_bars_witness :
  convertResult (L := demo) "1|a=b|zzz|9"
  = (try labels <- foldl addLabel (Ok ∅) (strings.Split "a=b" ","); Ok ((demoParseFloat "1").1, labels))
  ∧ convertResult (L := demo) "1|a=b|zzz|9" = convertResult (L := demo) "1|a=b".
Proof.
  apply (convertResult_two_bars (L := demo) "1" "a=b" "zzz|9"); reflexivity.
Defined.

Example convertResult_two_bars_example :
  convertResult (L := demo) "1|a=b|zzz|9" = Ok (1%float, {[ "a" := "b" ]}).
Proof. reflexivity. Qed.

Example convertResult_value_with_equals :
  convertResult (L := demo) "7|expr=a=b,x=" = Ok (7%float, <[ "x" := "" ]> {[ "expr" := "a=b" ]}).
Proof. reflexivity. Qed.

(** ** The script executor *)

Section Executor.

(** [runBashScript] always returns: the string is stdout after exit
    status 0 and empty otherwise, and there is an error exactly in the
    second case. *)
Lemma runBashScript_returns (check : Check) (p : Process) (w : World) :
  ∃ err,
    (runBashScript check p w).1
    = Ok (match runErr p with None => stdout p | Some _ => "" end, err)
    ∧ (runErr p = None → err = None).
Proof.
  unfold runBashScript, bind, logf, ret. simpl.
  destruct (runErr p) as [e|]; [|by eexists].
  destruct (negb _); [|destruct (negb _)]; by eexists.
Qed.

(** C4. With exit status 0 the captured stdout is returned with no error.
    Otherwise exactly one error is returned, carrying stdout if it is
    non-empty, else stderr if it is non-empty, else the launch or exit
    error, and the result string is empty.  The sink is not touched. *)
Theorem runBashScript_result (check : Check) (p : Process) (w : World) :
  (runBashScript check p w).1
  = Ok (match runErr p with
        | None => (stdout p, None)
        | Some err =>
            ("", Some ("Script failed with error: "
                       +:+ (if bool_decide (stdout p ≠ "") then stdout p
                            else if bool_decide (stderr p ≠ "") then stderr p
                            else err)))
        end)
  ∧ sameSink w (runBashScript check p w).2.
Proof.
  unfold runBashScript, bind, logf, ret. simpl.
  destruct (runErr p) as [err|]; [|done].
  destruct (String.eqb_spec (stdout p) "") as [Ho|Ho]; simpl.
  - rewrite (bool_decide_eq_false_2 (stdout p ≠ "")) by auto.
    destruct (String.eqb_spec (stderr p) "") as [He|He]; simpl.
    + by rewrite (bool_decide_eq_false_2 (stderr p ≠ "")) by auto.
    + by rewrite (bool_decide_eq_true_2 (stderr p ≠ "")) by auto.
  - by rewrite (bool_decide_eq_true_2 (stdout p ≠ "")) by auto.
Qed.

(** Scenario 5 of the specification. *)
Example runBashScript_stderr :
  (runBashScript (mkCheck "c" "" "/c.sh" 60 "Gauge" true 0 [] [] None)
                 (mkProcess "" "timeout" (Some "exit status 1")) (mkWorld [] [] [])).1
  = Ok ("", Some "Script failed with error: timeout").
Proof. reflexivity. Qed.

End Executor.

(** ** Teardown *)

Section Teardown.

Lemma filter_nil_Forall {A} (P : A → Prop) `{∀ x, Decision (P x)} (l : list A) :
  Forall (λ x, ¬ P x) l → filter P l = [].
Proof. induction 1; [done|]. by rewrite filter_cons_False. Qed.

Lemma unregister_without_series (check : Check) (w : World) :
  metric check = None → unregisterMetricsForCheck check w = (Ok check, w).
Proof. intros Hm. unfold unregisterMetricsForCheck. by rewrite Hm. Qed.

Lemma unregister_Gauge (check : Check) (w : World) (h : nat) (v : GaugeVec) :
  MetricType check = "Gauge" → metric check = Some h → heap w !! h = Some v →
  unregisterMetricsForCheck check w
  = (Ok (setMetric check None),
     mkWorld (heap w)
             (filter (λ h', nameOf w h' ≠ Some (fqName v)) (registry w))
             (logs w ++ [mkEntry DebugLevel "Unregistered metrics for check %s"
                                 [AStr (Name check)]])).
Proof.
  intros Ht Hm Hh. unfold unregisterMetricsForCheck, Unregister, asGaugeVec, bind, logf, ret.
  rewrite Hm, Ht. simpl. by rewrite Hh.
Qed.

(** C8. Teardown of a check that holds a registered series leaves no
    collector registered under the check's name, clears the handle, and a
    second teardown changes nothing; so does teardown of any check that
    holds no series. *)
Theorem teardown_complete_and_idempotent
    (check : Check) (w : World) (h : nat) (v : GaugeVec) :
  MetricType check = "Gauge" → metric check = Some h →
  heap w !! h = Some v → fqName v = Name check →
  ∃ check' w',
    unregisterMetricsForCheck check w = (Ok check', w')
    ∧ metric check' = None
    ∧ registeredFor w' (Name check) = [] ∧ (h ∉ registry w')
    ∧ unregisterMetricsForCheck check' w' = (Ok check', w')
    ∧ ∀ c0 w0, metric c0 = None → unregisterMetricsForCheck c0 w0 = (Ok c0, w0).
Proof.
  intros Ht Hm Hh Hname. eexists _, _.
  split; [by apply (unregister_Gauge check w h v)|]. split; [done|].
  split; [|split; [|split]].
  - unfold registeredFor. simpl. rewrite <- Hname.
    apply filter_nil_Forall, Forall_forall. intros h' Hin%list_elem_of_filter.
    unfold nameOf in *. simpl. tauto.
  - simpl. intros Hin%list_elem_of_filter. destruct Hin as [Hne _].
    apply Hne. unfold nameOf. by rewrite Hh.
  - by apply unregister_without_series.
  - apply unregister_without_series.
Qed.

End Teardown.

Lemma teardown_complete_and_idempotent_witness :
  ∃ check' w',
    unregisterMetricsForCheck (diskCheck "Gauge" 60 0 [] [sda; sdb] (Some 0%nat)) diskWorld
    = (Ok check', w')
    ∧ metric check' = None
    ∧ registeredFor w' "disk" = [] ∧ (0%nat ∉ registry w')
    ∧ unregisterMetricsForCheck check' w' = (Ok check', w')
    ∧ ∀ c0 w0, metric c0 = None → unregisterMetricsForCheck c0 w0 = (Ok c0, w0).
Proof.
  apply (teardown_complete_and_idempotent
           (diskCheck "Gauge" 60 0 [] [sda; sdb] (Some 0%nat)) diskWorld 0%nat diskVec);
    reflexivity.
Defined.

(** ** The registry *)

Section Registry.

Lemma filter_NoDup_fmap_length {A B} `{EqDecision B} (f : A → B) (y : B) (l : list A) :
  NoDup (f <$> l) → (length (filter (λ x, f x = y) l) ≤ 1)%nat.
Proof.
  induction l as [|x l IH]; [simpl; lia|].
  rewrite fmap_cons, NoDup_cons. intros [Hx Hl].
  destruct (decide (f x = y)) as [Hy|Hy].
  - rewrite filter_cons_True by done. simpl.
    rewrite (filter_nil_Forall (λ x, f x = y)); [simpl; lia|].
    apply Forall_forall. intros x' Hx' Hfx'. apply Hx.
    rewrite Hy, <- Hfx'. by apply list_elem_of_fmap_2.
  - rewrite filter_cons_False by done. by apply IH.
Qed.

(** At most one collector is registered under any name. *)
Lemma registryOK_at_most_one (w : World) (name : string) :
  registryOK w → (length (registeredFor w name) ≤ 1)%nat.
Proof. intros [_ Hnd]. by apply filter_NoDup_fmap_length. Qed.

Lemma nameRegistered_false (w : World) (name : string) :
  nameRegistered w name = false ↔ Some name ∉ nameOf w <$> registry w.
Proof.
  unfold nameRegistered. rewrite <- not_true_iff_false, existsb_exists.
  split.
  - intros Hno (h & Hh & Hin)%list_elem_of_fmap. apply Hno. exists h.
    split; [by apply list_elem_of_In|]. by apply bool_decide_eq_true.
  - intros Hno (h & Hin%list_elem_of_In & Hh%bool_decide_eq_true). apply Hno.
    rewrite <- Hh. by apply list_elem_of_fmap_2.
Qed.

(** [registryOK] looks at names only: it survives every change of the heap
    that keeps the name of each registered collector. *)
Lemma registryOK_names (w w' : World) :
  registry w' = registry w →
  (∀ h, h ∈ registry w → nameOf w' h = nameOf w h) →
  registryOK w → registryOK w'.
Proof.
  intros Hreg Hnames [Halloc Hnd]. unfold registryOK. rewrite Hreg. split.
  - apply Forall_forall. intros h Hin.
    rewrite Forall_forall in Halloc. specialize (Halloc h Hin).
    specialize (Hnames h Hin). unfold nameOf in Hnames.
    destruct (heap w' !! h); [done|]. destruct Halloc as [v Hv].
    by rewrite Hv in Hnames.
  - erewrite list_fmap_ext; [done|]. intros i h Hi. simpl. apply Hnames.
    by eapply list_elem_of_lookup_2.
Qed.

Lemma nameOf_insert (w : World) (h : nat) (v v' : GaugeVec) (reg : list nat) (lg : list Entry) (h' : nat) :
  heap w !! h = Some v → fqName v' = fqName v →
  nameOf (mkWorld (<[h := v']> (heap w)) reg lg) h' = nameOf w h'.
Proof.
  intros Hh Hname. unfold nameOf. simpl. destruct (decide (h = h')) as [<-|Hne].
  - rewrite list_lookup_insert_eq by (by eapply lookup_lt_Some).
    rewrite Hh. simpl. by rewrite Hname.
  - by rewrite list_lookup_insert_ne.
Qed.

Lemma nameOf_alloc (w : World) (v : GaugeVec) (reg : list nat) (lg : list Entry) (h : nat) :
  is_Some (heap w !! h) →
  nameOf (mkWorld (heap w ++ [v]) reg lg) h = nameOf w h.
Proof.
  intros Hh. unfold nameOf. simpl. rewrite lookup_app_l; [done|].
  by apply lookup_lt_is_Some.
Qed.

Lemma registryOK_insert (w : World) (h : nat) (v v' : GaugeVec) (lg : list Entry) :
  heap w !! h = Some v → fqName v' = fqName v →
  registryOK w → registryOK (mkWorld (<[h := v']> (heap w)) (registry w) lg).
Proof.
  intros Hh Hname. apply registryOK_names; [done|].
  intros h' _. by eapply nameOf_insert.
Qed.

Lemma registryOK_alloc (w : World) (v : GaugeVec) (lg : list Entry) :
  registryOK w → registryOK (mkWorld (heap w ++ [v]) (registry w) lg).
Proof.
  intros Hok. apply (registryOK_names w); [done| |done].
  intros h Hin. apply nameOf_alloc. destruct Hok as [Halloc _].
  rewrite Forall_forall in Halloc. by apply Halloc.
Qed.

Lemma nameRegistered_alloc (w : World) (v : GaugeVec) (lg : list Entry) (name : string) :
  registryOK w →
  nameRegistered (mkWorld (heap w ++ [v]) (registry w) lg) name = nameRegistered w name.
Proof.
  intros [Halloc _]. unfold nameRegistered. simpl.
  rewrite Forall_forall in Halloc.
  induction (registry w) as [|h reg IH]; [done|]. simpl.
  rewrite nameOf_alloc by (apply Halloc; left).
  f_equal. apply IH. intros h' Hin. apply Halloc. by right.
Qed.

Lemma registryOK_register (w : World) (v : GaugeVec) (lg : list Entry) :
  registryOK w → nameRegistered w (fqName v) = false →
  registryOK (mkWorld (heap w ++ [v]) (registry w ++ [length (heap w)]) lg).
Proof.
  intros Hok Hfree. pose proof Hok as [Halloc Hnd].
  rewrite Forall_forall in Halloc. split; simpl.
  - apply Forall_app. split.
    + apply Forall_forall. intros h Hin.
      rewrite lookup_app_l; [by apply Halloc|]. by apply lookup_lt_is_Some, Halloc.
    + constructor; [|done]. by rewrite list_lookup_middle.
  - rewrite fmap_app. apply NoDup_app.
    assert (nameOf (mkWorld (heap w ++ [v]) (registry w ++ [length (heap w)]) lg) <$> registry w
            = nameOf w <$> registry w) as ->.
    { apply list_fmap_ext. intros i h Hi. apply nameOf_alloc, Halloc.
      by eapply list_elem_of_lookup_2. }
    split; [done|]. split.
    + intros x Hx Hx'. apply list_elem_of_singleton in Hx'. subst x.
      unfold nameOf in Hx. simpl in Hx. rewrite list_lookup_middle in Hx by done.
      simpl in Hx. by apply nameRegistered_false in Hfree.
    + simpl. apply NoDup_singleton.
Qed.


End Registry.

(** ** Recording an observation *)

Section Recording.
Context {L : Libraries}.

(** The check after [append(check.resultCurrent, labels)]. *)
Let recorded (check : Check) (labels : Labels) : Check :=
  setResults check (resultLast check) (resultCurrent check ++ [labels]).

Let traced (check : Check) (value : float) (labels : Labels) : Entry :=
  mkEntry TraceLevel "Result from check %s -> value: %f, labels: %v"
          [AStr (Name check); AFloat value; ALabels labels].

(** A Gauge check that holds a vector: nothing is allocated or registered;
    the child for [labels] is set, or [With] panics. *)
Lemma register_existing (check : Check) (value : float) (labels : Labels) (w : World) (h : nat) :
  MetricType check = "Gauge" → metric check = Some h →
  registerMetricsForCheck check value labels w
  = match heap w !! h with
    | None => (Panic InterfaceConversion, w)
    | Some v =>
        if labelsFit v labels
        then (Ok (recorded check labels),
              mkWorld (<[h := setMetrics v (<[labels := value]> (metrics v))]> (heap w))
                      (registry w) (logs w ++ [traced check value labels]))
        else (Panic InconsistentLabels, w)
    end.
Proof.
  intros Ht Hm. unfold registerMetricsForCheck, WithSet, asGaugeVec, bind, ret, logf.
  repeat first [rewrite Hm | rewrite Ht | progress simpl].
  destruct (heap w !! h) as [v|]; simpl; [|done].
  by destruct (labelsFit v labels).
Qed.

(** A Gauge check that holds no vector: one is allocated with the keys of
    [labels] as label names, registered under the check's name, and the
    child for [labels] is set. *)
Lemma register_first (check : Check) (value : float) (labels : Labels) (w : World) :
  MetricType check = "Gauge" → metric check = None →
  registerMetricsForCheck check value labels w
  = let h := length (heap w) in
    let v := mkGaugeVec (Name check) (Help check) (convertMapKeysToSlice labels) ∅ in
    let w1 := mkWorld (heap w ++ [v]) (registry w) (logs w) in
    if negb (validDesc (Name check) (convertMapKeysToSlice labels))
    then (Panic InvalidDescriptor, w1)
    else if nameRegistered w1 (Name check)
    then (Panic (AlreadyRegistered (Name check)), w1)
    else if labelsFit v labels
    then (Ok (setMetric (recorded check labels) (Some h)),
          mkWorld (heap w ++ [setMetrics v {[labels := value]}])
                  (registry w ++ [h]) (logs w ++ [traced check value labels]))
    else (Panic InconsistentLabels, mkWorld (heap w ++ [v]) (registry w ++ [h]) (logs w)).
Proof.
  intros Ht Hm.
  unfold registerMetricsForCheck, NewGaugeVec, MustRegister, WithSet, asGaugeVec, bind, ret, logf.
  repeat first [rewrite Hm | rewrite Ht | progress simpl].
  rewrite list_lookup_middle by done. simpl.
  destruct (validDesc _ _); simpl; [|done].
  destruct (nameRegistered _ _); simpl; [done|].
  rewrite list_lookup_middle by done. simpl.
  destruct (labelsFit _ labels); simpl; [|done].
  f_equal. f_equal.
  rewrite <- (Nat.add_0_r (length (heap w))) at 1.
  by rewrite insert_app_r.
Qed.

Lemma labelsFit_fresh (name hlp : string) (m : gmap Labels float) (labels : Labels) :
  labelsFit (mkGaugeVec name hlp (convertMapKeysToSlice labels) m) labels
  = bool_decide (map_Forall (λ _ val, ValidString val = true) labels).
Proof.
  unfold labelsFit, convertMapKeysToSlice. simpl.
  rewrite bool_decide_eq_true_2 by (by rewrite length_fmap, length_map_to_list).
  simpl. rewrite (proj2 (forallb_forall _ _)); [by rewrite andb_true_r|].
  intros k Hk%list_elem_of_In. apply bool_decide_eq_true.
  apply list_elem_of_fmap in Hk as ([k' x] & -> & Hin). simpl.
  apply elem_of_map_to_list in Hin. by eexists.
Qed.

Lemma convertMapKeysToSlice_keys (labels : Labels) :
  NoDup (convertMapKeysToSlice labels)
  ∧ ∀ name, name ∈ convertMapKeysToSlice labels ↔ is_Some (labels !! name).
Proof.
  split; [apply NoDup_fst_map_to_list|]. intros name. unfold convertMapKeysToSlice. split.
  - intros ([k x] & -> & Hin)%list_elem_of_fmap. simpl.
    apply elem_of_map_to_list in Hin. by eexists.
  - intros [x Hx]. apply list_elem_of_fmap. exists (name, x).
    split; [done|]. by apply elem_of_map_to_list.
Qed.

(** Recording keeps the registry well-formed, whatever it ends in. *)
Lemma register_Gauge_registryOK (check : Check) (value : float) (labels : Labels) (w : World) :
  MetricType check = "Gauge" → registryOK w →
  registryOK (registerMetricsForCheck check value labels w).2.
Proof.
  intros Ht Hok. destruct (metric check) as [h|] eqn:Hm.
  - rewrite (register_existing _ _ _ _ h) by done.
    destruct (heap w !! h) as [v|] eqn:Hh; [|done].
    destruct (labelsFit v labels); [|done]. by eapply registryOK_insert.
  - rewrite register_first by done. cbv zeta.
    destruct (validDesc _ _); simpl; [|by apply registryOK_alloc].
    rewrite nameRegistered_alloc by done.
    destruct (nameRegistered w (Name check)) eqn:Hfree; [by apply registryOK_alloc|].
    destruct (labelsFit _ labels); by apply (registryOK_register w (mkGaugeVec _ _ _ _)).
Qed.

End Recording.

(** ** Reconciliation *)

Section Reconciliation.
Context {L : Libraries}.

Lemma stale_not_elem_of (current : list Labels) (labelsLast : Labels) :
  stale current labelsLast = bool_decide (labelsLast ∉ current).
Proof.
  unfold stale.
  enough (∀ r, foldl (λ remove labelCurrent,
                        if DeepEqual labelsLast labelCurrent then false else remove)
                     r current
               = r && bool_decide (labelsLast ∉ current)) as -> by done.
  induction current as [|c current IH]; intros r; cbn [foldl].
  - by rewrite bool_decide_eq_true_2, andb_true_r by apply not_elem_of_nil.
  - rewrite IH. unfold DeepEqual. destruct (decide (labelsLast = c)) as [<-|Hc].
    + rewrite (bool_decide_eq_true_2 (labelsLast = labelsLast)) by done.
      rewrite (bool_decide_eq_false_2 (labelsLast ∉ labelsLast :: current)).
      * by rewrite andb_false_r.
      * intros Hn. apply Hn. left.
    + rewrite (bool_decide_eq_false_2 (labelsLast = c)) by done.
      f_equal. apply bool_decide_ext. rewrite not_elem_of_cons. tauto.
Qed.

(** The child gauges left after the loop over [resultLast]. *)
Let sweep (current : list Labels) (m : gmap Labels float) (lasts : list Labels)
  : gmap Labels float :=
  foldl (λ m l, if stale current l then delete l m else m) m lasts.

Lemma sweep_lookup (current lasts : list Labels) (m : gmap Labels float) (l : Labels) :
  sweep current m lasts !! l
  = if bool_decide (l ∈ lasts ∧ l ∉ current) then None else m !! l.
Proof.
  unfold sweep. revert m. induction lasts as [|l0 lasts IH]; intros m; cbn [foldl].
  - rewrite bool_decide_eq_false_2; [done|]. intros [Hin _]. by apply elem_of_nil in Hin.
  - rewrite IH, stale_not_elem_of.
    assert ((if bool_decide (l0 ∉ current) then delete l0 m else m) !! l
            = if bool_decide (l0 = l ∧ l ∉ current) then None else m !! l) as ->.
    { destruct (decide (l0 = l)) as [->|Hne].
      - destruct (decide (l ∉ current)) as [Hc|Hc].
        + rewrite !bool_decide_eq_true_2 by done. apply lookup_delete_eq.
        + rewrite (bool_decide_eq_false_2 _ Hc).
          rewrite bool_decide_eq_false_2; [done|]. tauto.
      - rewrite (bool_decide_eq_false_2 (l0 = l ∧ l ∉ current)) by tauto.
        destruct (bool_decide (l0 ∉ current)); [by apply lookup_delete_ne|done]. }
    destruct (decide (l ∈ lasts ∧ l ∉ current)) as [Hl|Hl].
    + rewrite !bool_decide_eq_true_2; [done| |done]. split; [right|]; tauto.
    + rewrite (bool_decide_eq_false_2 _ Hl).
      destruct (decide (l0 = l ∧ l ∉ current)) as [[-> Hc]|Hl0].
      * rewrite !bool_decide_eq_true_2; [done| |done]. split; [left|done].
      * rewrite (bool_decide_eq_false_2 _ Hl0).
        rewrite bool_decide_eq_false_2; [done|].
        rewrite elem_of_cons. intros [[->|?] ?]; tauto.
Qed.

Lemma labelsFit_setMetrics (v : GaugeVec) (m : gmap Labels float) (l : Labels) :
  labelsFit (setMetrics v m) l = labelsFit v l.
Proof. done. Qed.

Lemma childrenFit_delete (v : GaugeVec) (l : Labels) :
  childrenFit v → childrenFit (setMetrics v (delete l (metrics v))).
Proof. intros Hfit. by apply map_Forall_delete. Qed.

(** [With(labels).Set(value)] keeps the invariant, and a new vector has it. *)
Lemma childrenFit_insert (v : GaugeVec) (l : Labels) (value : float) :
  childrenFit v → labelsFit v l = true →
  childrenFit (setMetrics v (<[l := value]> (metrics v))).
Proof. intros Hfit Hl. by apply map_Forall_insert_2. Qed.

Lemma childrenFit_new (name hlp : string) (labelNames : list string) :
  childrenFit (mkGaugeVec name hlp labelNames ∅).
Proof. apply map_Forall_empty. Qed.

Lemma setMetrics_same (v : GaugeVec) : setMetrics v (metrics v) = v.
Proof. by destruct v. Qed.

(** [Delete] of labels under a vector whose children all fit: afterwards
    no child has them, whatever it reports. *)
Lemma Delete_live (w : World) (h : nat) (v : GaugeVec) (l : Labels) :
  heap w !! h = Some v → childrenFit v →
  ∃ deleted,
    Delete (Some h) l w
    = (Ok deleted,
       mkWorld (<[h := setMetrics v (delete l (metrics v))]> (heap w)) (registry w) (logs w)).
Proof.
  intros Hh Hfit. unfold Delete, asGaugeVec, bind. rewrite Hh. simpl.
  destruct (metrics v !! l) as [x|] eqn:Hl.
  - rewrite (map_Forall_lookup_1 _ _ _ _ Hfit Hl). rewrite bool_decide_eq_true_2 by (by eexists).
    by eexists.
  - rewrite (bool_decide_eq_false_2 (is_Some None)) by (by intros [? ?]).
    rewrite andb_false_r. exists false.
    rewrite delete_id, setMetrics_same, list_insert_id by done. by destruct w.
Qed.

(** The body of the loop over [resultLast]. *)
Let body (check : Check) (labelsLast : Labels) : M unit :=
  if stale (resultCurrent check) labelsLast then
    logf DebugLevel "Check %s remove stale metric vector with labels %s"
         [AStr (Name check); ALabels labelsLast] ;;
    if String.eqb (MetricType check) "Gauge" then
      do deleted <- Delete (metric check) labelsLast;
      if negb deleted then
        logf WarnLevel "Failed to delete stale metric vector with label %s from check %s"
             [ALabels labelsLast; AStr (Name check)]
      else ret tt
    else ret tt
  else ret tt.

Lemma cleanup_unfold (check : Check) :
  cleanupUnusedDimensions check
  = (logf TraceLevel "Check %s cleaning up -> size of resultLast : %d, size of resultCurrent: %d"
          [AStr (Name check); AInt (Z.of_nat (length (resultLast check)));
           AInt (Z.of_nat (length (resultCurrent check)))] ;;
     if (0 <? length (resultCurrent check))%nat
     then forRange (resultLast check) (body check)
     else ret tt).
Proof. reflexivity. Qed.

Lemma cleanup_body (check : Check) (h : nat) (l : Labels) (w : World) (v : GaugeVec) :
  MetricType check = "Gauge" → metric check = Some h →
  heap w !! h = Some v → childrenFit v →
  ∃ lg,
    body check l w
    = (Ok tt,
       mkWorld (<[h := setMetrics v (if stale (resultCurrent check) l
                                     then delete l (metrics v) else metrics v)]> (heap w))
               (registry w) lg).
Proof.
  intros Ht Hm Hh Hfit. unfold body. destruct (stale (resultCurrent check) l).
  - rewrite Ht, Hm. simpl. unfold bind at 1. unfold logf at 1. unfold bind.
    edestruct (Delete_live (mkWorld (heap w) (registry w)
                 (logs w ++ [mkEntry DebugLevel "Check %s remove stale metric vector with labels %s"
                                     [AStr (Name check); ALabels l]])) h v l)
      as [deleted ->]; [done..|].
    destruct deleted; simpl; by eexists.
  - exists (logs w). unfold ret. rewrite setMetrics_same, list_insert_id by done.
    by destruct w.
Qed.

Lemma cleanup_loop (check : Check) (h : nat) (lasts : list Labels) (w : World) (v : GaugeVec) :
  MetricType check = "Gauge" → metric check = Some h →
  heap w !! h = Some v → childrenFit v →
  ∃ lg,
    forRange lasts (body check) w
    = (Ok tt,
       mkWorld (<[h := setMetrics v (sweep (resultCurrent check) (metrics v) lasts)]> (heap w))
               (registry w) lg).
Proof.
  intros Ht Hm. revert w v. induction lasts as [|l lasts IH]; intros w v Hh Hfit.
  - exists (logs w). simpl. unfold ret. rewrite setMetrics_same, list_insert_id by done.
    by destruct w.
  - cbn [forRange]. unfold bind at 1.
    destruct (cleanup_body check h l w v Ht Hm Hh Hfit) as [lg1 ->].
    set (v1 := setMetrics v (if stale (resultCurrent check) l
                             then delete l (metrics v) else metrics v)).
    edestruct (IH (mkWorld (<[h := v1]> (heap w)) (registry w) lg1) v1) as [lg ->].
    + simpl. apply list_lookup_insert_eq. by eapply lookup_lt_Some.
    + subst v1. destruct (stale _ l); [by apply childrenFit_delete|].
      by rewrite setMetrics_same.
    + exists lg. simpl. by rewrite list_insert_insert_eq.
Qed.

(** C1 (as the code has it). For a Gauge check that holds a vector,
    reconciliation removes from it exactly the label-sets of [resultLast]
    that have no equal in [resultCurrent], provided [resultCurrent] is not
    empty; when it is empty nothing is removed.  Every other child, every
    other vector and the registry are untouched. *)
Theorem cleanup_removes_stale (check : Check) (w : World) (h : nat) (v : GaugeVec) :
  MetricType check = "Gauge" → metric check = Some h →
  heap w !! h = Some v → childrenFit v →
  ∃ w' v',
    cleanupUnusedDimensions check w = (Ok tt, w')
    ∧ registry w' = registry w
    ∧ (∀ h', h' ≠ h → heap w' !! h' = heap w !! h')
    ∧ heap w' !! h = Some v'
    ∧ fqName v' = fqName v ∧ variableLabels v' = variableLabels v
    ∧ ∀ l, metrics v' !! l
           = if bool_decide (resultCurrent check ≠ [] ∧ l ∈ resultLast check
                             ∧ l ∉ resultCurrent check)
             then None else metrics v !! l.
Proof.
  intros Ht Hm Hh Hfit. rewrite cleanup_unfold. unfold bind at 1. unfold logf at 1.
  set (w0 := mkWorld _ _ _).
  destruct (resultCurrent check) as [|c current] eqn:Hcur.
  - exists w0, v. by do 6 (split; [done|]).
  - change (0 <? length (c :: current))%nat with true. cbv iota.
    destruct (cleanup_loop check h (resultLast check) w0 v Ht Hm Hh Hfit) as [lg ->].
    eexists _, _. split; [done|]. simpl. split; [done|].
    split; [intros h' Hne; by apply list_lookup_insert_ne|].
    split; [apply list_lookup_insert_eq; by eapply lookup_lt_Some|].
    do 2 (split; [done|]). intros l. simpl. rewrite sweep_lookup, Hcur.
    apply (f_equal (λ b : bool, if b then None else metrics v !! l)).
    apply bool_decide_ext. split; [done|]. by intros [_ ?].
Qed.

End Reconciliation.

(** With an empty [resultCurrent] the guard of [cleanupUnusedDimensions]
    skips the loop: the child for sdb, reported in the last run and not in
    the current one, is still there. *)
Lemma cleanup_keeps_stale_when_current_empty :
  sdb ∈ resultLast (diskCheck "Gauge" 60 0 [sda; sdb] [] (Some 0%nat))
  ∧ (sdb ∉ resultCurrent (diskCheck "Gauge" 60 0 [sda; sdb] [] (Some 0%nat)))
  ∧ ∃ w' v',
      cleanupUnusedDimensions (L := demo) (diskCheck "Gauge" 60 0 [sda; sdb] [] (Some 0%nat))
                              diskWorld = (Ok tt, w')
      ∧ heap w' !! 0%nat = Some v'
      ∧ metrics v' !! sdb = Some 2%float.
Proof.
  split; [right; left|]. split; [apply not_elem_of_nil|].
  eexists _, _. split; [reflexivity|]. split; reflexivity.
Qed.

Lemma cleanup_removes_stale_witness :
  ∃ w' v',
    cleanupUnusedDimensions (L := demo) (diskCheck "Gauge" 60 0 [sda; sdb] [sda] (Some 0%nat))
                            diskWorld = (Ok tt, w')
    ∧ registry w' = registry diskWorld
    ∧ (∀ h', h' ≠ 0%nat → heap w' !! h' = heap diskWorld !! h')
    ∧ heap w' !! 0%nat = Some v'
    ∧ fqName v' = fqName diskVec ∧ variableLabels v' = variableLabels diskVec
    ∧ ∀ l, metrics v' !! l
           = if bool_decide ([sda] ≠ [] ∧ l ∈ [sda; sdb] ∧ l ∉ [sda])
             then None else metrics diskVec !! l.
Proof.
  apply (cleanup_removes_stale (L := demo)
           (diskCheck "Gauge" 60 0 [sda; sdb] [sda] (Some 0%nat)) diskWorld 0%nat diskVec);
    [reflexivity | reflexivity | reflexivity |].
  unfold childrenFit. apply (bool_decide_unpack (map_Forall _ _)). vm_compute. exact I.
Defined.

(** Scenario 3 of the specification. *)
Example cleanup_scenario :
  ∃ lg, cleanupUnusedDimensions (L := demo) (diskCheck "Gauge" 60 0 [sda; sdb] [sda] (Some 0%nat))
                                diskWorld
        = (Ok tt, mkWorld [mkGaugeVec "disk" "usage" ["disk"] {[ sda := 1%float ]}] [0%nat] lg).
Proof. eexists. vm_compute. reflexivity. Qed.

(** ** Reasoning about the runner's monad *)

Section Wp.

Lemma wp_bind {A B} (m : M A) (k : A → M B) (w : World) (Q : Result B → World → Prop) :
  wp m w (λ r w1, match r with Ok a => wp (k a) w1 Q | Panic p => Q (Panic p) w1 end) →
  wp (bind m k) w Q.
Proof. unfold wp, bind. by destruct (m w) as [[a|p] w1]. Qed.

Lemma wp_mono {A} (m : M A) (w : World) (Q Q' : Result A → World → Prop) :
  wp m w Q → (∀ r w', Q r w' → Q' r w') → wp m w Q'.
Proof. unfold wp. auto. Qed.

Lemma wp_ret {A} (a : A) (w : World) (Q : Result A → World → Prop) :
  Q (Ok a) w → wp (ret a) w Q.
Proof. done. Qed.

Lemma wp_logf (l : Level) (fmt : string) (a : list Arg) (w : World)
    (Q : Result unit → World → Prop) :
  Q (Ok tt) (mkWorld (heap w) (registry w) (logs w ++ [mkEntry l fmt a])) →
  wp (logf l fmt a) w Q.
Proof. done. Qed.

Lemma wp_lift {A} (r : Result A) (w : World) (Q : Result A → World → Prop) :
  Q r w → wp (lift r) w Q.
Proof. done. Qed.

Lemma wp_forRangeS {A S} (body : S → A → M S) (I : S → World → Prop) (E : World → Prop) :
  (∀ s x w, I s w → wp (body s x) w (loopPost I E)) →
  ∀ xs s w, I s w → wp (forRangeS xs body s) w (loopPost I E).
Proof.
  intros Hbody. induction xs as [|x xs IH]; intros s w Hs; [done|].
  cbn [forRangeS]. apply wp_bind. eapply wp_mono; [by apply Hbody|].
  intros [s'|p] w' Hs'; [by apply IH|done].
Qed.

Lemma wp_forRange {A} (body : A → M unit) (I E : World → Prop) :
  (∀ x w, I w → wp (body x) w (loopPost (λ _, I) E)) →
  ∀ xs w, I w → wp (forRange xs body) w (loopPost (λ _, I) E).
Proof.
  intros Hbody. induction xs as [|x xs IH]; intros w Hw; [done|].
  cbn [forRange]. apply wp_bind. eapply wp_mono; [by apply Hbody|].
  intros [[]|p] w' Hw'; [by apply IH|done].
Qed.

End Wp.

(** ** What a pass leaves alone *)

Section Frame.
Context {L : Libraries}.

Lemma sameConfig_refl (c : Check) : sameConfig c c.
Proof. by repeat split. Qed.

Lemma sameConfig_trans (c1 c2 c3 : Check) :
  sameConfig c1 c2 → sameConfig c2 c3 → sameConfig c1 c3.
Proof. unfold sameConfig. intros (?&?&?&?&?&?&?) (?&?&?&?&?&?&?). repeat split; congruence. Qed.

Lemma sameSink_refl (w : World) : sameSink w w.
Proof. done. Qed.

Lemma sameSink_trans (w1 w2 w3 : World) : sameSink w1 w2 → sameSink w2 w3 → sameSink w1 w3.
Proof. unfold sameSink. intros [? ?] [? ?]. split; congruence. Qed.

(** A check of any other kind: a warning and the trace line are logged,
    nothing else happens. *)
Lemma register_nonGauge (check : Check) (value : float) (labels : Labels) (w : World) :
  MetricType check ≠ "Gauge" →
  ∃ e m,
    isWarn e = true ∧ (metric check = None → m = None)
    ∧ registerMetricsForCheck check value labels w
      = (Ok (setMetric (setResults check (resultLast check) (resultCurrent check ++ [labels])) m),
         mkWorld (heap w) (registry w)
                 (logs w ++ [e; mkEntry TraceLevel "Result from check %s -> value: %f, labels: %v"
                                        [AStr (Name check); AFloat value; ALabels labels]])).
Proof.
  intros Ht%String.eqb_neq. unfold registerMetricsForCheck, bind, ret, logf. simpl.
  rewrite Ht.
  destruct (String.eqb (MetricType check) "Counter");
    [|destruct (String.eqb (MetricType check) "Histogram");
      [|destruct (String.eqb (MetricType check) "Summary")]];
    simpl; rewrite <- app_assoc; simpl.
  1-3: eexists _, (metric check); (split; [|split]); [| |by destruct check];
       [reflexivity|done].
  eexists _, None. (split; [|split]); [| |reflexivity]; [reflexivity|done].
Qed.

(** Recording never changes the configuration or the schedule. *)
Lemma register_sameConfig (check : Check) (value : float) (labels : Labels) (w : World) :
  wp (registerMetricsForCheck check value labels) w
     (λ r _, ∀ check', r = Ok check' → sameConfig check check').
Proof.
  unfold wp. destruct (decide (MetricType check = "Gauge")) as [Ht|Ht].
  - destruct (metric check) as [h|] eqn:Hm.
    + rewrite (register_existing _ _ _ _ h) by done.
      destruct (heap w !! h) as [v|]; [|done].
      destruct (labelsFit v labels); [|done]. by intros check' [= <-].
    + rewrite register_first by done. cbv zeta.
      destruct (negb _); [done|]. destruct (nameRegistered _ _); [done|].
      destruct (labelsFit _ _); [|done]. by intros check' [= <-].
  - destruct (register_nonGauge check value labels w Ht) as (e & m & _ & _ & ->).
    by intros check' [= <-].
Qed.

Lemma unregister_sameConfig (check : Check) (w : World) :
  wp (unregisterMetricsForCheck check) w
     (λ r _, ∀ check', r = Ok check' → sameConfig check check').
Proof.
  unfold unregisterMetricsForCheck, wp. destruct (metric check) as [h|].
  - unfold bind at 1.
    match goal with |- context [?m w] => destruct (m w) as [[[]|p] w1] end; simpl; [|done].
    by intros check' [= <-].
  - simpl. intros check' [= <-]. apply sameConfig_refl.
Qed.

End Frame.

(** ** One pass of the loop *)

Section Pass.
Context {L : Libraries}.

(** The body of the loop over [resultLine]. *)
Let step (check : Check) (line : string) : M Check :=
  if negb (String.eqb line "") then
    do '(value, labels) <- lift (convertResult line);
    registerMetricsForCheck check value labels
  else ret check.

Lemma tick_skip (now : Z) (p : Process) (check : Check) (w : World) :
  now ≤ nextrun check → tick now p check w = (Ok check, w).
Proof.
  intros Hnow. unfold tick. rewrite Z.gtb_ltb.
  by rewrite (proj2 (Z.ltb_ge _ _)) by done.
Qed.

Lemma step_sameConfig (check0 check : Check) (line : string) (w : World) :
  sameConfig check0 check →
  wp (step check line) w (loopPost (λ s _, sameConfig check0 s) (λ _, True)).
Proof.
  intros Hc. unfold step. destruct (negb _); [|done].
  apply wp_bind, wp_lift. destruct (convertResult line) as [[value labels]|perr]; [|done].
  eapply wp_mono; [apply register_sameConfig|].
  intros [check'|perr] w' Hr; [|done]. simpl. eapply sameConfig_trans; eauto.
Qed.

(** A pass that completes leaves the configuration alone and moves
    [nextrun] by [Interval], in [int64] arithmetic; a pass that finds the
    time not yet come changes nothing. *)
Lemma tick_schedule (now : Z) (p : Process) (check : Check) (w : World) :
  wp (tick now p check) w
     (λ r _, ∀ check', r = Ok check' →
        if now >? nextrun check
        then ∃ c1, sameConfig check c1
                   ∧ check' = setNextrun c1 (int64 (nextrun c1 + int64 (Interval c1)))
        else check' = check).
Proof.
  unfold tick. destruct (now >? nextrun check); [|by intros check' [= <-]].
  apply wp_bind, wp_logf. apply wp_bind. unfold wp at 1.
  rewrite (surjective_pairing (runBashScript _ p _)).
  match goal with
  | |- context [runBashScript ?c p ?w0] =>
      destruct (runBashScript_returns c p w0) as (err & -> & _)
  end.
  cbv beta iota. set (result := match runErr p with None => stdout p | Some _ => "" end).
  clearbody result. set (w1 := (runBashScript _ p _).2). clearbody w1.
  set (check0 := setResults check (resultCurrent check) []).
  assert (sameConfig check check0) as H0 by (by repeat split).
  set (Q := λ (r : Result Check) (_ : World), ∀ check', r = Ok check' →
              ∃ c1, sameConfig check c1
                    ∧ check' = setNextrun c1 (int64 (nextrun c1 + int64 (Interval c1)))).
  assert (∀ c1 w2, sameConfig check c1 →
            wp (cleanupUnusedDimensions c1 ;;
                logf DebugLevel "Finished check %s and schedule next run for %s"
                     [AStr (Name (setNextrun c1 (int64 (nextrun c1 + int64 (Interval c1)))));
                      AInt (nextrun (setNextrun c1 (int64 (nextrun c1 + int64 (Interval c1)))))] ;;
                ret (setNextrun c1 (int64 (nextrun c1 + int64 (Interval c1))))) w2 Q) as Hend.
  { intros c1 w2 Hc1. unfold wp, bind at 1.
    destruct (cleanupUnusedDimensions c1 w2) as [[[]|perr] w3]; [|done].
    simpl. intros check' [= <-]. by exists c1. }
  destruct err as [err|].
  - apply wp_bind. unfold bind at 1, logf at 1, ret at 1, wp at 1. simpl.
    exact (Hend check0 _ H0).
  - apply wp_bind. eapply wp_mono.
    + apply (wp_forRangeS step (λ s _, sameConfig check s) (λ _, True)); [|exact H0].
      intros s x w2 Hs. by apply step_sameConfig.
    + intros [c1|perr] w2 Hc1; [|done]. exact (Hend c1 w2 Hc1).
Qed.

Lemma int64_small (z : Z) : - 2 ^ 63 ≤ z < 2 ^ 63 → int64 z = z.
Proof. intros Hz. unfold int64. rewrite Z.mod_small; lia. Qed.

(** C9 (as the code has it). A pass that completes adds [Interval] to
    [nextrun] when it ran the check and leaves it alone otherwise; with
    the sum inside the [int64] range this is an increase by exactly
    [Interval], strict for a positive interval.  Recording and teardown
    never change [nextrun]; reconciliation returns no check at all. *)
Theorem nextrun_advances (now : Z) (p : Process) (check check' : Check) (w : World) :
  (tick now p check w).1 = Ok check' →
  - 2 ^ 63 ≤ Interval check < 2 ^ 63 →
  - 2 ^ 63 ≤ nextrun check + Interval check < 2 ^ 63 →
  (if now >? nextrun check
   then nextrun check' = nextrun check + Interval check
   else nextrun check' = nextrun check)
  ∧ Interval check' = Interval check
  ∧ (0 < Interval check →
       nextrun check ≤ nextrun check' ∧ (now > nextrun check → nextrun check < nextrun check'))
  ∧ (∀ value labels w0 c0,
       (registerMetricsForCheck check value labels w0).1 = Ok c0 → nextrun c0 = nextrun check)
  ∧ (∀ w0 c0, (unregisterMetricsForCheck check w0).1 = Ok c0 → nextrun c0 = nextrun check).
Proof.
  intros Hok Hint Hsum.
  pose proof (tick_schedule now p check w check' Hok) as Hsched.
  assert ((if now >? nextrun check
           then nextrun check' = nextrun check + Interval check
           else nextrun check' = nextrun check)
          ∧ Interval check' = Interval check) as [Hnext Hival].
  { destruct (now >? nextrun check).
    - destruct Hsched as (c1 & (_ & _ & _ & Hi & _ & _ & Hn) & ->). simpl.
      rewrite Hi, Hn. by rewrite (int64_small (Interval check)), int64_small.
    - by subst check'. }
  split; [done|]. split; [done|]. split; [|split].
  - intros Hpos. destruct (now >? nextrun check) eqn:Hnow; [split; lia|].
    rewrite Z.gtb_ltb in Hnow. apply Z.ltb_ge in Hnow. split; lia.
  - intros value labels w0 c0 Hc0.
    by destruct (register_sameConfig check value labels w0 c0 Hc0) as (_&_&_&_&_&_&?).
  - intros w0 c0 Hc0.
    by destruct (unregister_sameConfig check w0 c0 Hc0) as (_&_&_&_&_&_&?).
Qed.

(** *** Checks of a kind other than Gauge *)

Lemma warned_refl (w : World) : warned 0 w w.
Proof. split; [done|]. by rewrite Nat.add_0_r. Qed.

Lemma warned_trans (n m : nat) (w1 w2 w3 : World) :
  warned n w1 w2 → warned m w2 w3 → warned (n + m) w1 w3.
Proof.
  intros [Hs1 Hc1] [Hs2 Hc2]. split; [by eapply sameSink_trans|].
  rewrite Hc2, Hc1. lia.
Qed.

Lemma warned_log (n : nat) (w : World) (lg : list Entry) :
  length (filter (λ e, isWarn e = true) lg) = n →
  warned n w (mkWorld (heap w) (registry w) (logs w ++ lg)).
Proof.
  intros <-. split; [done|]. unfold countWarn. simpl. by rewrite filter_app, length_app.
Qed.

Lemma runBashScript_warned (check : Check) (p : Process) (w : World) :
  warned 0 w (runBashScript check p w).2.
Proof.
  unfold runBashScript, bind, logf, ret. simpl.
  destruct (runErr p) as [err|]; [|by apply (warned_log 0 w [_])].
  destruct (negb _); [|destruct (negb _)]; simpl; rewrite <- app_assoc;
    by apply (warned_log 0 w [_; _]).
Qed.

Lemma cleanup_nonGauge (check : Check) (w : World) :
  MetricType check ≠ "Gauge" →
  wp (cleanupUnusedDimensions check) w (λ r w', r = Ok tt ∧ warned 0 w w').
Proof.
  intros Ht%String.eqb_neq. unfold cleanupUnusedDimensions.
  apply wp_bind, wp_logf. set (w1 := mkWorld _ _ _).
  assert (warned 0 w w1) as H1 by (by apply (warned_log 0 w [_])).
  destruct (0 <? _)%nat; [|done].
  eapply wp_mono.
  - apply (wp_forRange _ (warned 0 w) (λ _, False)); [|exact H1].
    intros l w2 Hw2. destruct (stale _ l); [|done]. rewrite Ht.
    unfold wp, bind, logf, ret. simpl.
    apply (warned_trans 0 0 w w2); [done|]. by apply (warned_log 0 w2 [_]).
  - by intros [[]|perr] w2.
Qed.

Lemma unregister_nonGauge (check : Check) (w : World) :
  MetricType check ≠ "Gauge" → sameSink w (unregisterMetricsForCheck check w).2.
Proof.
  intros Ht%String.eqb_neq. unfold unregisterMetricsForCheck.
  destruct (metric check); [|done]. rewrite Ht. unfold bind, logf, ret.
  by destruct (String.eqb _ "Counter");
    [|destruct (String.eqb _ "Histogram"); [|destruct (String.eqb _ "Summary")]].
Qed.

(** Whatever a pass of such a check ends in, the sink is as it was. *)
Lemma tick_nonGauge_sink (w0 : World) (now : Z) (p : Process) (check : Check) (w : World) :
  MetricType check ≠ "Gauge" → sameSink w0 w →
  wp (tick now p check) w
     (loopPost (λ s w', MetricType s ≠ "Gauge" ∧ sameSink w0 w') (sameSink w0)).
Proof.
  intros Ht Hw. unfold tick. destruct (now >? nextrun check); [|done].
  apply wp_bind, wp_logf. apply wp_bind. unfold wp at 1.
  rewrite (surjective_pairing (runBashScript _ p _)).
  match goal with
  | |- context [runBashScript ?c p ?w0] =>
      destruct (runBashScript_returns c p w0) as (err & -> & _)
  end.
  cbv beta iota. set (result := match runErr p with None => stdout p | Some _ => "" end).
  clearbody result.
  pose proof (proj1 (runBashScript_warned (setResults check (resultCurrent check) []) p
                (mkWorld (heap w) (registry w)
                   (logs w ++ [mkEntry DebugLevel "Running check %s" [AStr (Name check)]]))))
    as Hrun.
  set (w1 := (runBashScript _ p _).2) in *. clearbody w1.
  assert (sameSink w0 w1) as H1 by (by eapply sameSink_trans).
  clear Hrun.
  assert (∀ c1 w2, MetricType c1 ≠ "Gauge" → sameSink w0 w2 →
            wp (cleanupUnusedDimensions c1 ;;
                logf DebugLevel "Finished check %s and schedule next run for %s"
                     [AStr (Name (setNextrun c1 (int64 (nextrun c1 + int64 (Interval c1)))));
                      AInt (nextrun (setNextrun c1 (int64 (nextrun c1 + int64 (Interval c1)))))] ;;
                ret (setNextrun c1 (int64 (nextrun c1 + int64 (Interval c1))))) w2
               (loopPost (λ s w', MetricType s ≠ "Gauge" ∧ sameSink w0 w') (sameSink w0)))
    as Hend.
  { intros c1 w2 Hc1 Hw2. apply wp_bind. eapply wp_mono; [by apply cleanup_nonGauge|].
    intros r w3 [-> [Hw3 _]]. unfold wp, bind, logf, ret. simpl.
    split; [done|]. by eapply sameSink_trans. }
  destruct err as [err|].
  - apply wp_bind. unfold bind at 1, logf at 1, ret at 1, wp at 1. simpl.
    by apply (Hend (setResults check (resultCurrent check) [])).
  - apply wp_bind. eapply wp_mono.
    + apply (wp_forRangeS step (λ s w', MetricType s ≠ "Gauge" ∧ sameSink w0 w') (sameSink w0));
        [|by split].
      intros s line w2 [Hs Hw2]. unfold step. destruct (negb _); [|done].
      apply wp_bind, wp_lift. destruct (convertResult line) as [[value labels]|perr]; [|done].
      destruct (register_nonGauge s value labels w2 Hs) as (e & m & _ & _ & Hreg).
      unfold wp. rewrite Hreg. simpl. split; [done|]. by eapply sameSink_trans.
    + intros [c1|perr] w2; [|done]. intros [Hc1 Hw2]. by apply Hend.
Qed.

(** The same for a whole run, teardown included. *)
Lemma runCheck_nonGauge_sink (check : Check) (passes : list (Z * Process)) (w : World) :
  MetricType check ≠ "Gauge" → sameSink w (runCheck check passes w).2.
Proof.
  intros Ht. unfold runCheck.
  enough (wp (do check0 <- forRangeS passes (λ check0 '(now, p), tick now p check0) check;
              logf DebugLevel "Stopping check %s" [AStr (Name check0)] ;;
              unregisterMetricsForCheck check0) w (λ _ w', sameSink w w')) by done.
  apply wp_bind. eapply wp_mono.
  - apply (wp_forRangeS _ (λ s w', MetricType s ≠ "Gauge" ∧ sameSink w w') (sameSink w));
      [|by split].
    intros s [now p] w1 [Hs Hw1]. by apply tick_nonGauge_sink.
  - intros [c1|perr] w1; [|done]. intros [Hc1 Hw1].
    apply wp_bind, wp_logf. unfold wp.
    eapply sameSink_trans; [exact Hw1|].
    eapply sameSink_trans; [|by apply unregister_nonGauge]. done.
Qed.

(** The loop over the lines, when every line that is not empty converts:
    one warning per such line. *)
Lemma lines_nonGauge (lines : list string) (check : Check) (w : World) :
  MetricType check ≠ "Gauge" →
  Forall (λ line, ∃ x, convertResult line = Ok x) (filter (λ line, line ≠ "") lines) →
  ∃ check' w',
    forRangeS lines step check w = (Ok check', w')
    ∧ MetricType check' = MetricType check
    ∧ warned (length (filter (λ line, line ≠ "") lines)) w w'.
Proof.
  intros Ht. revert check w Ht.
  induction lines as [|line lines IH]; intros check w Ht Hall.
  - exists check, w. split; [done|]. split; [done|]. apply warned_refl.
  - cbn [forRangeS]. unfold bind at 1, step at 1.
    destruct (String.eqb_spec line "") as [->|Hline]; simpl.
    + rewrite filter_cons_False in * by (by intros ?). by apply IH.
    + rewrite filter_cons_True in * by done. apply Forall_cons in Hall as [[[value labels] Hline'] Hall].
      unfold bind at 1, lift. rewrite Hline'.
      destruct (register_nonGauge check value labels w Ht) as (e & m & He & _ & ->).
      set (check1 := setMetric _ m). set (w1 := mkWorld _ _ _).
      destruct (IH check1 w1) as (check' & w' & -> & Ht' & Hw'); [done..|].
      exists check', w'. split; [done|]. split; [done|].
      apply (warned_trans 1 _ w w1 w'); [|done].
      apply (warned_log 1 w [e; _]). by rewrite filter_cons_True, filter_cons_False.
Qed.

(** C7. For a check whose kind is not Gauge: recording an observation
    succeeds, logs one warning and leaves the sink as it was; so does
    every pass and every whole run, whatever they end in: no vector is
    ever allocated or registered.  A pass whose script succeeds and whose
    lines all convert completes, and logs one warning per observation. *)
Theorem nonGauge_never_creates (check : Check) :
  MetricType check ≠ "Gauge" →
  (∀ value labels w,
     ∃ check' w', registerMetricsForCheck check value labels w = (Ok check', w')
                  ∧ MetricType check' = MetricType check ∧ warned 1 w w')
  ∧ (∀ now p w, sameSink w (tick now p check w).2)
  ∧ (∀ passes w, sameSink w (runCheck check passes w).2)
  ∧ (∀ now p w,
       now > nextrun check → runErr p = None →
       Forall (λ line, ∃ x, convertResult line = Ok x) (observations (stdout p)) →
       ∃ check', (tick now p check w).1 = Ok check'
                 ∧ MetricType check' = MetricType check
                 ∧ warned (length (observations (stdout p))) w (tick now p check w).2).
Proof.
  intros Ht. split; [|split; [|split]].
  - intros value labels w.
    destruct (register_nonGauge check value labels w Ht) as (e & m & He & _ & ->).
    eexists _, _. split; [done|]. split; [done|].
    apply (warned_log 1 w [e; _]). by rewrite filter_cons_True, filter_cons_False.
  - intros now p w. pose proof (tick_nonGauge_sink w now p check w Ht (sameSink_refl w)) as Hwp.
    unfold wp, loopPost in Hwp. destruct ((tick now p check w).1); tauto.
  - intros passes w. by apply runCheck_nonGauge_sink.
  - intros now p w Hnow Hrun Hall.
    enough (∃ check' w', tick now p check w = (Ok check', w')
                         ∧ MetricType check' = MetricType check
                         ∧ warned (length (observations (stdout p))) w w')
      as (check' & w' & -> & ? & ?) by (by exists check').
    unfold tick.
    rewrite (proj2 (Z.gtb_gt _ _)) by done.
    unfold bind at 1, logf at 1. unfold bind at 1.
    pose proof (runBashScript_warned (setResults check (resultCurrent check) []) p
                  (mkWorld (heap w) (registry w)
                     (logs w ++ [mkEntry DebugLevel "Running check %s" [AStr (Name check)]])))
      as Hw1.
    rewrite (surjective_pairing (runBashScript _ p _)).
    match goal with
    | |- context [runBashScript ?c p ?w0] =>
        destruct (runBashScript_returns c p w0) as (err & -> & ->); [|done]
    end.
    rewrite Hrun.
    set (w1 := (runBashScript _ p _).2) in *. clearbody w1. cbv beta iota.
    destruct (lines_nonGauge (strings.Split (stdout p) "010")
                (setResults check (resultCurrent check) []) w1 Ht Hall)
      as (c1 & w2 & Hloop & Hc1 & Hw2).
    unfold bind at 1. fold step. rewrite Hloop.
    assert (MetricType c1 ≠ "Gauge") as Ht1 by (by rewrite Hc1).
    pose proof (cleanup_nonGauge c1 w2 Ht1) as Hclean. unfold wp in Hclean.
    unfold bind at 1. destruct (cleanupUnusedDimensions c1 w2) as [r w3].
    simpl in Hclean. destruct Hclean as [-> Hw3]. simpl.
    eexists _, _. split; [done|]. split; [done|].
    pose proof (warned_trans _ _ _ _ _
                  (warned_trans _ _ _ _ _
                     (warned_trans _ _ _ _ _
                        (warned_trans _ _ _ _ _
                           (warned_log 0 w [mkEntry DebugLevel "Running check %s"
                                                    [AStr (Name check)]] eq_refl)
                           Hw1) Hw2) Hw3)
                  (warned_log 0 w3 [mkEntry DebugLevel
                      "Finished check %s and schedule next run for %s"
                      [AStr (Name c1); AInt (int64 (nextrun c1 + int64 (Interval c1)))]]
                     eq_refl))
      as Hall'.
    simpl in Hall'. rewrite !Nat.add_0_r in Hall'. exact Hall'.
Qed.

End Pass.

(** ** The registry over a whole run *)

Section Run.
Context {L : Libraries}.

Lemma registryOK_sameSink (w w' : World) : sameSink w w' → registryOK w → registryOK w'.
Proof.
  intros [Hheap Hreg]. apply registryOK_names; [done|].
  intros h _. unfold nameOf. by rewrite Hheap.
Qed.

Lemma registryOK_filter (w : World) (P : nat → Prop) `{∀ h, Decision (P h)} (lg : list Entry) :
  registryOK w → registryOK (mkWorld (heap w) (filter P (registry w)) lg).
Proof.
  intros [Halloc Hnd]. split; simpl.
  - apply Forall_forall. intros h [_ Hin]%list_elem_of_filter.
    rewrite Forall_forall in Halloc. by apply Halloc.
  - eapply sublist_NoDup; [exact Hnd|]. apply fmap_sublist, sublist_filter.
Qed.

Lemma register_registryOK (check : Check) (value : float) (labels : Labels) (w : World) :
  registryOK w → registryOK (registerMetricsForCheck check value labels w).2.
Proof.
  intros Hok. destruct (decide (MetricType check = "Gauge")) as [Ht|Ht].
  - by apply register_Gauge_registryOK.
  - destruct (register_nonGauge check value labels w Ht) as (e & m & _ & _ & ->).
    by apply (registryOK_sameSink w).
Qed.

Lemma Delete_registryOK (x : option nat) (l : Labels) (w : World) :
  registryOK w → registryOK (Delete x l w).2.
Proof.
  intros Hok. unfold Delete, asGaugeVec, bind. destruct x as [h|]; [|done].
  destruct (heap w !! h) as [v|] eqn:Hh; [|done]. simpl.
  destruct (_ && _); [|done]. by eapply registryOK_insert.
Qed.

Lemma cleanup_registryOK (check : Check) (w : World) :
  registryOK w → wp (cleanupUnusedDimensions check) w (λ _ w', registryOK w').
Proof.
  intros Hok. unfold cleanupUnusedDimensions. apply wp_bind, wp_logf.
  destruct (0 <? _)%nat; [|by apply (registryOK_sameSink w)].
  eapply wp_mono.
  - apply (wp_forRange _ registryOK registryOK); [|by apply (registryOK_sameSink w)].
    intros l w1 Hw1. destruct (stale _ l); [|done].
    apply wp_bind, wp_logf.
    assert (registryOK (mkWorld (heap w1) (registry w1)
              (logs w1 ++ [mkEntry DebugLevel "Check %s remove stale metric vector with labels %s"
                                   [AStr (Name check); ALabels l]]))) as Hw2
      by (by apply (registryOK_sameSink w1)).
    destruct (String.eqb _ "Gauge"); [|done].
    apply wp_bind. unfold wp at 1.
    pose proof (Delete_registryOK (metric check) l _ Hw2) as Hdel.
    destruct (Delete _ l _) as [[deleted|perr] w3]; [|done]. simpl in Hdel.
    destruct deleted; simpl; [done|]. by apply (registryOK_sameSink w3).
  - by intros [[]|perr] w1.
Qed.

Lemma unregister_registryOK (check : Check) (w : World) :
  registryOK w → registryOK (unregisterMetricsForCheck check w).2.
Proof.
  intros Hok. unfold unregisterMetricsForCheck. destruct (metric check) as [h|]; [|done].
  destruct (String.eqb _ "Gauge").
  - unfold Unregister, asGaugeVec, bind, logf, ret.
    destruct (heap w !! h) as [v|]; simpl; [|done]. by apply (registryOK_filter w).
  - unfold bind, logf, ret.
    by destruct (String.eqb _ "Counter");
      [|destruct (String.eqb _ "Histogram"); [|destruct (String.eqb _ "Summary")]];
      apply (registryOK_sameSink w).
Qed.

Lemma tick_registryOK (now : Z) (p : Process) (check : Check) (w : World) :
  registryOK w → wp (tick now p check) w (λ _ w', registryOK w').
Proof.
  intros Hok. unfold tick. destruct (now >? nextrun check); [|done].
  apply wp_bind, wp_logf. apply wp_bind. unfold wp at 1.
  rewrite (surjective_pairing (runBashScript _ p _)).
  match goal with
  | |- context [runBashScript ?c p ?w0] =>
      destruct (runBashScript_returns c p w0) as (err & -> & _);
      pose proof (proj1 (runBashScript_warned c p w0)) as Hrun
  end.
  cbv beta iota. set (result := match runErr p with None => stdout p | Some _ => "" end).
  clearbody result. set (w1 := (runBashScript _ p _).2) in *. clearbody w1.
  assert (registryOK w1) as H1 by (by apply (registryOK_sameSink _ _ Hrun)). clear Hrun.
  assert (∀ c1 w2, registryOK w2 →
            wp (cleanupUnusedDimensions c1 ;;
                logf DebugLevel "Finished check %s and schedule next run for %s"
                     [AStr (Name (setNextrun c1 (int64 (nextrun c1 + int64 (Interval c1)))));
                      AInt (nextrun (setNextrun c1 (int64 (nextrun c1 + int64 (Interval c1)))))] ;;
                ret (setNextrun c1 (int64 (nextrun c1 + int64 (Interval c1))))) w2
               (λ _ w', registryOK w')) as Hend.
  { intros c1 w2 Hw2. apply wp_bind. eapply wp_mono; [by apply cleanup_registryOK|].
    intros [[]|perr] w3 Hw3; [|done]. by apply (registryOK_sameSink w3). }
  destruct err as [err|].
  - apply wp_bind. unfold bind at 1, logf at 1, ret at 1, wp at 1. simpl.
    apply (Hend (setResults check (resultCurrent check) [])). by apply (registryOK_sameSink w1).
  - apply wp_bind. eapply wp_mono.
    + apply (wp_forRangeS _ (λ _, registryOK) registryOK); [|exact H1].
      intros s line w2 Hw2. destruct (negb _); [|done].
      apply wp_bind, wp_lift. destruct (convertResult line) as [[value labels]|perr]; [|done].
      unfold wp, loopPost. pose proof (register_registryOK s value labels w2 Hw2).
      by destruct (registerMetricsForCheck s value labels w2) as [[c|perr] w3].
    + intros [c1|perr] w2 Hw2; [|done]. by apply (Hend c1).
Qed.

(** Any number of passes keeps the registry well-formed, and so does the
    teardown after them. *)
Lemma passes_registryOK (check : Check) (passes : list (Z * Process)) (w : World) :
  registryOK w →
  wp (forRangeS passes (λ check0 '(now, p), tick now p check0) check) w
     (λ _ w', registryOK w').
Proof.
  intros Hok. eapply wp_mono.
  - apply (wp_forRangeS _ (λ _, registryOK) registryOK); [|exact Hok].
    intros s [now p] w1 Hw1. eapply wp_mono; [by apply tick_registryOK|].
    by intros [c|perr] w2.
  - by intros [c|perr] w1.
Qed.

Lemma runCheck_registryOK (check : Check) (passes : list (Z * Process)) (w : World) :
  registryOK w → registryOK (runCheck check passes w).2.
Proof.
  intros Hok. unfold runCheck.
  enough (wp (do check0 <- forRangeS passes (λ check0 '(now, p), tick now p check0) check;
              logf DebugLevel "Stopping check %s" [AStr (Name check0)] ;;
              unregisterMetricsForCheck check0) w (λ _ w', registryOK w')) by done.
  apply wp_bind. eapply wp_mono; [by apply passes_registryOK|].
  intros [c1|perr] w1 Hw1; [|done].
  apply wp_bind, wp_logf. unfold wp.
  apply unregister_registryOK. by apply (registryOK_sameSink w1).
Qed.

(** C6. Recording an observation for a Gauge check keeps at most one
    collector registered per name, whatever the outcome, and so does any
    number of passes of the loop.  When the check already holds a vector,
    nothing is allocated or registered: the call sets the child for
    [labels] in that vector (or [With] panics because the labels do not
    fit it).  When it holds none, one vector is created, with exactly the
    keys of [labels] as label names, registered under the check's name,
    and the check holds it from then on. *)
Theorem create_once (check : Check) (value : float) (labels : Labels) (w : World) :
  MetricType check = "Gauge" → registryOK w →
  let r := registerMetricsForCheck check value labels w in
  let check1 := setResults check (resultLast check) (resultCurrent check ++ [labels]) in
  (∀ name, (length (registeredFor r.2 name) ≤ 1)%nat)
  ∧ (∀ passes name,
       (length (registeredFor
                  (forRangeS passes (λ check0 '(now, p), tick now p check0) check w).2
                  name) ≤ 1)%nat)
  ∧ match metric check with
    | Some h =>
        length (heap r.2) = length (heap w) ∧ registry r.2 = registry w
        ∧ ∀ v, heap w !! h = Some v →
            if labelsFit v labels
            then r.1 = Ok check1
                 ∧ heap r.2 !! h = Some (setMetrics v (<[labels := value]> (metrics v)))
            else r.1 = Panic InconsistentLabels
    | None =>
        let h := length (heap w) in
        if validDesc (Name check) (convertMapKeysToSlice labels)
           && negb (nameRegistered w (Name check))
           && bool_decide (map_Forall (λ _ val, ValidString val = true) labels)
        then ∃ v', r.1 = Ok (setMetric check1 (Some h))
                   ∧ heap r.2 = (heap w ++ [v'])%list
                   ∧ registry r.2 = (registry w ++ [h])%list
                   ∧ fqName v' = Name check
                   ∧ NoDup (variableLabels v')
                   ∧ (∀ name, name ∈ variableLabels v' ↔ is_Some (labels !! name))
                   ∧ metrics v' = {[ labels := value ]}
        else ∃ p, r.1 = Panic p
    end.
Proof.
  intros Ht Hok r check1.
  split; [intros name; by apply registryOK_at_most_one, register_Gauge_registryOK|].
  split; [intros passes name; by apply registryOK_at_most_one, (passes_registryOK check passes w)|].
  subst r. destruct (metric check) as [h|] eqn:Hm.
  - rewrite (register_existing _ _ _ _ h) by done.
    destruct (heap w !! h) as [v|] eqn:Hh.
    + destruct (labelsFit v labels) eqn:Hfit; simpl.
      * rewrite length_insert. do 2 (split; [done|]). intros v0 [= <-]. rewrite Hfit.
        split; [done|]. apply list_lookup_insert_eq. by eapply lookup_lt_Some.
      * do 2 (split; [done|]). intros v0 [= <-]. by rewrite Hfit.
    + by do 2 (split; [done|]).
  - rewrite register_first by done. cbv zeta.
    rewrite nameRegistered_alloc by done. rewrite labelsFit_fresh.
    destruct (validDesc _ _); simpl; [|by eexists].
    destruct (nameRegistered w (Name check)); simpl; [by eexists|].
    destruct (bool_decide _); simpl; [|by eexists].
    eexists. split; [done|]. do 3 (split; [done|]). simpl.
    destruct (convertMapKeysToSlice_keys labels) as [Hnd Hkeys]. by do 2 (split; [done|]).
Qed.

End Run.

Lemma nextrun_advances_witness :
  (if 5 >? 0 then 60 = 0 + 60 else 60 = 0)
  ∧ Interval (diskCheck "Gauge" 60 60 [] [sda; sdb] (Some 0%nat)) = 60
  ∧ (0 < 60 → 0 ≤ 60 ∧ (5 > 0 → 0 < 60))
  ∧ (∀ value labels w0 c0,
       (registerMetricsForCheck (L := demo) (diskCheck "Gauge" 60 0 [] [] None)
                                value labels w0).1 = Ok c0 → nextrun c0 = 0)
  ∧ (∀ w0 c0, (unregisterMetricsForCheck (diskCheck "Gauge" 60 0 [] [] None) w0).1 = Ok c0
              → nextrun c0 = 0).
Proof.
  apply (nextrun_advances (L := demo) 5 (mkProcess diskOutput "" None)
           (diskCheck "Gauge" 60 0 [] [] None)
           (diskCheck "Gauge" 60 60 [] [sda; sdb] (Some 0%nat)) emptyWorld);
    [vm_compute; reflexivity | simpl; lia | simpl; lia].
Defined.

(** With the sum past the [int64] range the addition wraps around: a
    positive interval, a completed pass, and [nextrun] has gone down. *)
Lemma nextrun_wraps_around :
  ∃ check',
    (tick (L := demo) 1700000001 (mkProcess diskOutput "" None)
          (diskCheck "Gauge" (2 ^ 63 - 1) 1700000000 [] [] None) emptyWorld).1 = Ok check'
    ∧ 0 < Interval (diskCheck "Gauge" (2 ^ 63 - 1) 1700000000 [] [] None)
    ∧ nextrun check' < 1700000000.
Proof. eexists. split; [vm_compute; reflexivity|]. split; reflexivity. Qed.

Lemma nonGauge_never_creates_witness :
  (∀ value labels w,
     ∃ check' w',
       registerMetricsForCheck (L := demo) (diskCheck "Histogram" 60 0 [] [] None)
                               value labels w = (Ok check', w')
       ∧ MetricType check' = "Histogram" ∧ warned 1 w w')
  ∧ (∀ now p w, sameSink w (tick (L := demo) now p (diskCheck "Histogram" 60 0 [] [] None) w).2)
  ∧ (∀ passes w,
       sameSink w (runCheck (L := demo) (diskCheck "Histogram" 60 0 [] [] None) passes w).2)
  ∧ (∀ now p w,
       now > 0 → runErr p = None →
       Forall (λ line, ∃ x, convertResult (L := demo) line = Ok x) (observations (stdout p)) →
       ∃ check',
         (tick (L := demo) now p (diskCheck "Histogram" 60 0 [] [] None) w).1 = Ok check'
         ∧ MetricType check' = "Histogram"
         ∧ warned (length (observations (stdout p))) w
                  (tick (L := demo) now p (diskCheck "Histogram" 60 0 [] [] None) w).2).
Proof.
  apply (nonGauge_never_creates (L := demo) (diskCheck "Histogram" 60 0 [] [] None)).
  simpl. discriminate.
Defined.

(** Scenario 4 of the specification: five passes of a Histogram check,
    each recording two observations. *)
Example histogram_five_passes :
  let passes := (λ now, (now, mkProcess diskOutput "" None)) <$> [1; 61; 121; 181; 241] in
  let w' := (runCheck (L := demo) (diskCheck "Histogram" 60 0 [] [] None) passes emptyWorld).2 in
  heap w' = [] ∧ registry w' = [] ∧ countWarn w' = 10%nat.
Proof. vm_compute. done. Qed.

(** Scenario 3 of the specification, through two passes of the loop: the
    second run no longer reports sdb. *)
Example gauge_two_passes :
  ∃ check' lg,
    forRangeS [(1, mkProcess diskOutput "" None); (61, mkProcess "7|disk=sda" "" None)]
              (λ check '(now, p), tick (L := demo) now p check)
              (diskCheck "Gauge" 60 0 [] [] None) emptyWorld
    = (Ok check',
       mkWorld [mkGaugeVec "disk" "usage" ["disk"] {[ sda := 7%float ]}] [0%nat] lg)
    ∧ nextrun check' = 120 ∧ metric check' = Some 0%nat.
Proof. eexists _, _. vm_compute. done. Qed.

(** A pass whose script fails records nothing, so reconciliation is
    skipped and the children of the run before stay. *)
Example gauge_failed_pass :
  ∃ check' lg,
    forRangeS [(1, mkProcess diskOutput "" None);
               (61, mkProcess "" "timeout" (Some "exit status 1"))]
              (λ check '(now, p), tick (L := demo) now p check)
              (diskCheck "Gauge" 60 0 [] [] None) emptyWorld
    = (Ok check',
       mkWorld [mkGaugeVec "disk" "usage" ["disk"]
                           (<[sdb := 2.5%float]> {[ sda := 1.5%float ]})] [0%nat] lg)
    ∧ resultLast check' = [sda; sdb] ∧ resultCurrent check' = [].
Proof. eexists _, _. vm_compute. done. Qed.

(** A second observation with other label names makes [With] panic. *)
Example gauge_label_names_change :
  (tick (L := demo) 1 (mkProcess (strings.Join ["1|disk=sda"; "2|mount=/"] "010") "" None)
        (diskCheck "Gauge" 60 0 [] [] None) emptyWorld).1
  = Panic InconsistentLabels.
Proof. vm_compute. reflexivity. Qed.

Lemma create_once_witness :
  (∀ name,
     (length (registeredFor
                (registerMetricsForCheck (L := demo) (diskCheck "Gauge" 60 0 [] [] None)
                                         1.5%float sda emptyWorld).2 name) ≤ 1)%nat)
  ∧ (∀ passes name,
       (length (registeredFor
                  (forRangeS passes (λ check0 '(now, p), tick (L := demo) now p check0)
                             (diskCheck "Gauge" 60 0 [] [] None) emptyWorld).2
                  name) ≤ 1)%nat)
  ∧ ∃ v',
      (registerMetricsForCheck (L := demo) (diskCheck "Gauge" 60 0 [] [] None)
                               1.5%float sda emptyWorld).1
      = Ok (diskCheck "Gauge" 60 0 [] [sda] (Some 0%nat))
      ∧ heap (registerMetricsForCheck (L := demo) (diskCheck "Gauge" 60 0 [] [] None)
                                      1.5%float sda emptyWorld).2 = [v']
      ∧ registry (registerMetricsForCheck (L := demo) (diskCheck "Gauge" 60 0 [] [] None)
                                          1.5%float sda emptyWorld).2 = [0%nat]
      ∧ fqName v' = "disk"
      ∧ NoDup (variableLabels v')
      ∧ (∀ name, name ∈ variableLabels v' ↔ is_Some (sda !! name))
      ∧ metrics v' = {[ sda := 1.5%float ]}.
Proof.
  exact (create_once (L := demo) (diskCheck "Gauge" 60 0 [] [] None) 1.5%float sda emptyWorld
           eq_refl (conj (Forall_nil_2 _) (NoDup_nil_2))).
Defined.

(** A second observation for the same check sets a child of the vector
    that is there; nothing is allocated or registered. *)
Example create_once_second_observation :
  ∃ lg,
    registerMetricsForCheck (L := demo) (diskCheck "Gauge" 60 0 [] [sda] (Some 0%nat))
                            3.5%float sda diskWorld
    = (Ok (diskCheck "Gauge" 60 0 [] [sda; sda] (Some 0%nat)),
       mkWorld [mkGaugeVec "disk" "usage" ["disk"]
                           (<[sdb := 2%float]> {[ sda := 3.5%float ]})] [0%nat] lg).
Proof. eexists. vm_compute. reflexivity. Qed.

(** A run of one pass followed by the stop signal: the deferred teardown
    leaves the registry empty and the handle cleared. *)
Example runCheck_tears_down :
  ∃ check' lg,
    runCheck (L := demo) (diskCheck "Gauge" 60 0 [] [] None)
             [(1, mkProcess diskOutput "" None)] emptyWorld
    = (Ok check',
       mkWorld [mkGaugeVec "disk" "usage" ["disk"]
                           (<[sdb := 2.5%float]> {[ sda := 1.5%float ]})] [] lg)
    ∧ metric check' = None.
Proof. eexists _, _. vm_compute. done. Qed.

(** * Further properties of the runner *)

(** ** The parser on every line *)

Section ParserDomain.
Context {L : Libraries}.
Import strings.

Lemma cut_not_nil lim sep s : cut lim sep s ≠ [].
Proof.
  revert lim. induction s as [|c s IH]; intros lim.
  - by destruct lim as [[|?]|].
  - destruct lim as [[|n]|]; [done| |]; simpl; case_decide; try done;
      by destruct (cut _ sep s).
Qed.

(** Splitting distributes over a separator: the pieces of [s] followed by
    the pieces of [t]. *)
Lemma Split_app_sep s t sep :
  Split (s +:+ String sep t) sep = (Split s sep ++ Split t sep)%list.
Proof.
  unfold Split, SplitN. simpl. induction s as [|c s IH]; simpl.
  - by case_decide.
  - case_decide; [by rewrite IH|]. rewrite IH.
    pose proof (cut_not_nil None sep s). by destruct (cut None sep s).
Qed.

Lemma addLabel_no_equals_panic labels label :
  Contains label "=" = false →
  addLabel (Ok labels) label = Panic (IndexOutOfRange 1 1).
Proof. intros Hl. unfold addLabel. simpl. by rewrite SplitN2_plain. Qed.

(** X1. [convertResult] returns exactly on the lines that hold no [|] and
    on those where every comma-separated item of the field after the first
    [|] holds a [=]; on every other line it panics. *)
Theorem convertResult_returns_iff (line : string) :
  (∃ r, convertResult line = Ok r)
  ↔ Contains line "|" = false
    ∨ ∃ part, Split line "|" !! 1%nat = Some part
              ∧ Forall (λ item, Contains item "=" = true) (Split part ",").
Proof.
  unfold convertResult. destruct (Contains line "|").
  - destruct (Split line "|") as [|value [|part rest]].
    + split; [by intros [? ?]|]. by intros [?|(? & ? & _)].
    + split; [by intros [? ?]|]. by intros [?|(? & ? & _)].
    + cbn [index lookup list_lookup bindR]. split.
      * intros [r Hr]. right. exists part. split; [done|].
        apply (foldl_addLabel_Ok_iff ∅).
        destruct (foldl addLabel (Ok ∅) (Split part ",")); [by eexists|done].
      * intros [?|(part' & [= <-] & Hall)]; [done|].
        apply (foldl_addLabel_Ok_iff ∅) in Hall as [labels ->]. by eexists.
  - split; [by left|]. by eexists.
Qed.

(** Whatever the items, the loop over them ends in a label map or in the
    panic of [splitLabel[1]] on a one-element slice. *)
Lemma foldl_addLabel_outcome items labels :
  (∃ labels', foldl addLabel (Ok labels) items = Ok labels')
  ∨ foldl addLabel (Ok labels) items = Panic (IndexOutOfRange 1 1).
Proof.
  revert labels. induction items as [|item items IH]; intros labels; cbn [foldl].
  - left. by eexists.
  - destruct (Contains item "=") eqn:Hitem.
    + destruct (proj2 (addLabel_Ok_iff labels item) Hitem) as [labels1 ->]. apply IH.
    + rewrite addLabel_no_equals_panic by done. right. apply foldl_addLabel_Panic.
Qed.

(** X2. A line that ends in [|], or whose label part ends in a comma,
    makes [convertResult] panic on [splitLabel[1]]: the empty item holds
    no [=]. *)
Theorem convertResult_empty_item_panics (a b : string) :
  Contains a "|" = false → Contains b "|" = false →
  convertResult (a +:+ "|") = Panic (IndexOutOfRange 1 1)
  ∧ convertResult (a +:+ "|" +:+ b +:+ ",") = Panic (IndexOutOfRange 1 1).
Proof.
  intros Ha Hb. split.
  - by rewrite (convertResult_one_bar a "").
  - rewrite (convertResult_one_bar a (b +:+ ",")).
    + change (b +:+ ",") with (b +:+ String "," ""). rewrite Split_app_sep, foldl_app.
      destruct (foldl_addLabel_outcome (Split b ",") ∅) as [[labels ->]| ->]; done.
    + done.
    + change (b +:+ ",") with (b +:+ String "," "").
      by rewrite Contains_app, Contains_cons, Hb.
Qed.

End ParserDomain.

Lemma convertResult_empty_item_panics_witness :
  convertResult (L := demo) "5|" = Panic (IndexOutOfRange 1 1)
  ∧ convertResult (L := demo) "5|disk=sda," = Panic (IndexOutOfRange 1 1).
Proof.
  apply (convertResult_empty_item_panics (L := demo) "5" "disk=sda"); reflexivity.
Defined.

(** ** Any number of labels *)

Section ParserPairs.
Context {L : Libraries}.
Import strings.

Lemma foldl_addLabel_items (kvs : list (string * string)) (labels : Labels) :
  Forall (λ kv, Contains kv.1 "=" = false) kvs →
  foldl addLabel (Ok labels) ((λ kv, kv.1 +:+ "=" +:+ kv.2) <$> kvs)
  = Ok (foldl (λ m kv, <[kv.1 := kv.2]> m) labels kvs).
Proof.
  intros Hall. revert labels. induction Hall as [|kv kvs Hkv Hall IH]; intros labels; [done|].
  cbn [fmap list_fmap foldl]. rewrite addLabel_item by done. apply IH.
Qed.

Lemma foldl_insert_lookup (kvs : list (string * string)) (labels : Labels) (k : string) :
  foldl (λ m kv, <[kv.1 := kv.2]> m) labels kvs !! k
  = match last (filter (λ kv, kv.1 = k) kvs) with
    | Some kv => Some kv.2
    | None => labels !! k
    end.
Proof.
  revert labels. induction kvs as [|kv kvs IH]; intros labels; [done|].
  cbn [foldl]. rewrite IH. destruct (decide (kv.1 = k)) as [Hk|Hk].
  - rewrite filter_cons_True by done. rewrite last_cons.
    destruct (last (filter _ kvs)); [done|]. by rewrite <- Hk, lookup_insert_eq.
  - rewrite filter_cons_False by done.
    destruct (last (filter _ kvs)); [done|]. by rewrite lookup_insert_ne.
Qed.

(** X3. A line [v|k1=v1,...,kn=vn] with one pair or more, names free of
    the separators and values free of [|] and [,], converts to the value
    of [v] and the map built by inserting the pairs in order: a name that
    occurs several times keeps the value of its last occurrence. *)
Theorem convertResult_pairs (v : string) (kvs : list (string * string)) :
  Contains v "|" = false → kvs ≠ [] →
  Forall (λ kv, plainKey kv.1 ∧ plainValue kv.2) kvs →
  ∃ labels,
    convertResult (v +:+ "|" +:+ Join ((λ kv, kv.1 +:+ "=" +:+ kv.2) <$> kvs) ",")
    = Ok ((ParseFloat v).1, labels)
    ∧ ∀ k, labels !! k = snd <$> last (filter (λ kv, kv.1 = k) kvs).
Proof.
  intros Hv Hne Hall.
  exists (foldl (λ m kv, <[kv.1 := kv.2]> m) ∅ kvs). split.
  - assert (∀ c : ascii, c ≠ "="%char →
              Forall (λ kv, Contains kv.1 c = false ∧ Contains kv.2 c = false) kvs →
              Forall (λ e, Contains e c = false) ((λ kv, kv.1 +:+ "=" +:+ kv.2) <$> kvs))
      as Hitems.
    { intros c Hc Hkvs. apply Forall_fmap. eapply Forall_impl; [exact Hkvs|].
      intros kv [Hk Hx]. simpl.
      by rewrite Contains_item, Hk, Hx, bool_decide_eq_false_2. }
    rewrite convertResult_one_bar; [|done|].
    + rewrite Split_Join.
      * rewrite foldl_addLabel_items; [done|].
        eapply Forall_impl; [exact Hall|]. by intros kv [(_ & _ & ?) _].
      * by destruct kvs.
      * apply Hitems; [done|]. eapply Forall_impl; [exact Hall|].
        by intros kv [(_ & ? & _) (_ & ?)].
    + apply Contains_Join; [done|]. apply Hitems; [done|].
      eapply Forall_impl; [exact Hall|]. by intros kv [(? & _ & _) (? & _)].
  - intros k. rewrite foldl_insert_lookup, lookup_empty.
    by destruct (last _).
Qed.

End ParserPairs.

Lemma convertResult_pairs_witness :
  ∃ labels,
    convertResult (L := demo) "7|disk=sda,mount=/,disk=sdb"
    = Ok ((demoParseFloat "7").1, labels)
    ∧ ∀ k, labels !! k
           = snd <$> last (filter (λ kv, kv.1 = k)
                                  [("disk", "sda"); ("mount", "/"); ("disk", "sdb")]).
Proof.
  apply (convertResult_pairs (L := demo) "7"
           [("disk", "sda"); ("mount", "/"); ("disk", "sdb")]);
    [reflexivity | discriminate | repeat constructor].
Defined.

Example convertResult_repeated_name :
  convertResult (L := demo) "7|disk=sda,mount=/,disk=sdb"
  = Ok (7%float, <[ "mount" := "/" ]> {[ "disk" := "sdb" ]}).
Proof. vm_compute. reflexivity. Qed.

(** ** Label names, repeated observations, teardown *)

Section SinkMore.
Context {L : Libraries}.


Lemma list_to_set_keys (value : Labels) :
  list_to_set (convertMapKeysToSlice value) = dom value.
Proof.
  apply set_eq. intros name. rewrite elem_of_list_to_set, elem_of_dom.
  apply convertMapKeysToSlice_keys.
Qed.

(** What the library accepts for a vector: exactly the label maps whose
    keys are the vector's label names and whose values are valid. *)
Lemma labelsFit_iff (v : GaugeVec) (labels : Labels) :
  NoDup (variableLabels v) →
  labelsFit v labels = true
  ↔ dom labels = list_to_set (variableLabels v)
    ∧ map_Forall (λ _ val, ValidString val = true) labels.
Proof.
  intros Hnd. unfold labelsFit. rewrite !andb_true_iff, !bool_decide_eq_true, forallb_forall.
  split.
  - intros [[Hsize Hvalid] Hnames]. split; [|done].
    symmetry. apply set_subseteq_size_eq.
    + intros name Hname%elem_of_list_to_set. apply elem_of_dom.
      eapply bool_decide_eq_true_1, Hnames. by apply list_elem_of_In.
    + by rewrite size_dom, Hsize, size_list_to_set.
  - intros [Hdom Hvalid]. split; [split; [|done]|].
    + by rewrite <- size_dom, Hdom, size_list_to_set.
    + intros name Hname%list_elem_of_In. apply bool_decide_eq_true_2, elem_of_dom.
      rewrite Hdom. by apply elem_of_list_to_set.
Qed.

(** X5. Once the first observation of a Gauge check has created its
    vector, an observation whose label names are not those of the first
    makes [With] panic, and the sink stays as the first one left it. *)
Theorem register_other_label_names_panics
    (check c1 : Check) (v1 v2 : float) (l1 l2 : Labels) (w : World) :
  MetricType check = "Gauge" → metric check = None →
  (registerMetricsForCheck check v1 l1 w).1 = Ok c1 →
  dom l2 ≠ dom l1 →
  registerMetricsForCheck c1 v2 l2 (registerMetricsForCheck check v1 l1 w).2
  = (Panic InconsistentLabels, (registerMetricsForCheck check v1 l1 w).2).
Proof.
  intros Ht Hm Hok Hdom.
  destruct (registerMetricsForCheck check v1 l1 w) as [r1 w1] eqn:Hreg.
  rewrite register_first in Hreg by done. cbv zeta in Hreg. simpl in Hok. subst r1.
  destruct (negb _); [done|]. destruct (nameRegistered _ _); [done|].
  destruct (labelsFit _ l1); [|done]. injection Hreg as <- <-.
  rewrite (register_existing _ _ _ _ (length (heap w))) by done.
  cbn [snd heap]. rewrite list_lookup_middle by done.
  destruct (labelsFit _ l2) eqn:Hfit; [|done].
  apply labelsFit_iff in Hfit as [Hfit _]; [|apply NoDup_fst_map_to_list].
  simpl in Hfit. by rewrite list_to_set_keys in Hfit.
Qed.

(** X6. Recording the same label-set twice for a Gauge check that holds
    a vector leaves one child for it, with the value recorded last: the
    sink is as if only the second observation had been recorded, and the
    label-set stands twice in [resultCurrent]. *)
Theorem register_twice_last_wins
    (check : Check) (a b : float) (l : Labels) (w : World) (h : nat) (v : GaugeVec) :
  MetricType check = "Gauge" → metric check = Some h →
  heap w !! h = Some v → labelsFit v l = true →
  ∃ c1 w1 c2 w2,
    registerMetricsForCheck check a l w = (Ok c1, w1)
    ∧ registerMetricsForCheck c1 b l w1 = (Ok c2, w2)
    ∧ heap w2 = <[h := setMetrics v (<[l := b]> (metrics v))]> (heap w)
    ∧ sameSink (registerMetricsForCheck check b l w).2 w2
    ∧ registry w2 = registry w
    ∧ resultCurrent c2 = (resultCurrent check ++ [l; l])%list
    ∧ metric c2 = Some h.
Proof.
  intros Ht Hm Hh Hfit.
  rewrite !(register_existing check _ _ _ h) by done. rewrite Hh, Hfit.
  eexists _, _. eexists _, _. split; [done|].
  rewrite (register_existing _ _ _ _ h) by done. cbn [heap].
  rewrite list_lookup_insert_eq by (by eapply lookup_lt_Some).
  rewrite labelsFit_setMetrics, Hfit. split; [done|]. cbn [heap registry metrics setMetrics].
  rewrite list_insert_insert_eq, insert_insert_eq.
  split; [by destruct v|]. split; [split; [by destruct v|done]|]. split; [done|].
  split; [|done]. simpl. by rewrite <- app_assoc.
Qed.

Lemma NoDup_fmap_eq {A B} (f : A → B) (l : list A) (x y : A) :
  NoDup (f <$> l) → x ∈ l → y ∈ l → f x = f y → x = y.
Proof.
  induction l as [|z l IH]; [by intros _ ?%elem_of_nil|].
  rewrite fmap_cons, NoDup_cons, !elem_of_cons. intros [Hz Hl] [->|Hx] [->|Hy] Hf.
  - done.
  - exfalso. apply Hz. rewrite Hf. by apply list_elem_of_fmap_2.
  - exfalso. apply Hz. rewrite <- Hf. by apply list_elem_of_fmap_2.
  - by apply IH.
Qed.

(** X7. Teardown of a Gauge check takes its own collector out of the
    registry and nothing else: every other registered collector stays
    registered, in the same order, and no vector is changed. *)
Theorem teardown_leaves_others (check : Check) (w : World) (h : nat) (v : GaugeVec) :
  MetricType check = "Gauge" → metric check = Some h →
  heap w !! h = Some v → registryOK w → h ∈ registry w →
  ∃ check' w',
    unregisterMetricsForCheck check w = (Ok check', w')
    ∧ heap w' = heap w
    ∧ registry w' = filter (λ h', h' ≠ h) (registry w)
    ∧ ∀ h', h' ∈ registry w → h' ≠ h → h' ∈ registry w'.
Proof.
  intros Ht Hm Hh [_ Hnd] Hin. eexists _, _.
  split; [by apply (unregister_Gauge check w h v)|]. simpl. split; [done|].
  assert (∀ h', h' ∈ registry w → nameOf w h' ≠ Some (fqName v) ↔ h' ≠ h) as Hiff.
  { intros h' Hin'. split.
    - intros Hne ->. apply Hne. unfold nameOf. by rewrite Hh.
    - intros Hne Hname. apply Hne.
      apply (NoDup_fmap_eq (nameOf w) (registry w)); [done..|].
      rewrite Hname. unfold nameOf. by rewrite Hh. }
  split.
  - clear Hin. induction (registry w) as [|h' reg IH]; [done|].
    apply NoDup_cons in Hnd as [_ Hnd'].
    rewrite !filter_cons. specialize (Hiff h') as Hh'.
    destruct (decide (nameOf w h' ≠ Some (fqName v))) as [Hn|Hn],
             (decide (h' ≠ h)) as [Hd|Hd].
    + f_equal. apply IH; [done|]. intros h'' Hin''. apply Hiff. by right.
    + exfalso. apply Hd, Hh'; [left|done].
    + exfalso. apply Hn, Hh'; [left|done].
    + apply IH; [done|]. intros h'' Hin''. apply Hiff. by right.
  - intros h' Hin' Hne. apply list_elem_of_filter. split; [|done]. by apply Hiff.
Qed.

End SinkMore.

Lemma register_other_label_names_panics_witness :
  registerMetricsForCheck (L := demo) (diskCheck "Gauge" 60 0 [] [sda] (Some 0%nat))
    2%float {[ "mount" := "/" ]}
    (registerMetricsForCheck (L := demo) (diskCheck "Gauge" 60 0 [] [] None)
                             1.5%float sda emptyWorld).2
  = (Panic InconsistentLabels,
     (registerMetricsForCheck (L := demo) (diskCheck "Gauge" 60 0 [] [] None)
                              1.5%float sda emptyWorld).2).
Proof.
  apply (register_other_label_names_panics (L := demo)
           (diskCheck "Gauge" 60 0 [] [] None) (diskCheck "Gauge" 60 0 [] [sda] (Some 0%nat))
           1.5%float 2%float sda {[ "mount" := "/" ]} emptyWorld);
    [reflexivity | reflexivity | reflexivity |].
  apply (bool_decide_unpack _). vm_compute. exact I.
Defined.

Lemma register_twice_last_wins_witness :
  ∃ c1 w1 c2 w2,
    registerMetricsForCheck (L := demo) (diskCheck "Gauge" 60 0 [] [] (Some 0%nat))
                            3%float sda diskWorld = (Ok c1, w1)
    ∧ registerMetricsForCheck (L := demo) c1 4%float sda w1 = (Ok c2, w2)
    ∧ heap w2 = <[0%nat := setMetrics diskVec (<[sda := 4%float]> (metrics diskVec))]>
                  (heap diskWorld)
    ∧ sameSink (registerMetricsForCheck (L := demo) (diskCheck "Gauge" 60 0 [] [] (Some 0%nat))
                                        4%float sda diskWorld).2 w2
    ∧ registry w2 = registry diskWorld
    ∧ resultCurrent c2 = [sda; sda]
    ∧ metric c2 = Some 0%nat.
Proof.
  apply (register_twice_last_wins (L := demo) (diskCheck "Gauge" 60 0 [] [] (Some 0%nat))
           3%float 4%float sda diskWorld 0%nat diskVec); reflexivity.
Defined.

Lemma teardown_leaves_others_witness :
  ∃ check' w',
    unregisterMetricsForCheck (diskCheck "Gauge" 60 0 [] [] (Some 1%nat))
      (mkWorld [mkGaugeVec "net" "traffic" ["if"] ∅; diskVec] [0%nat; 1%nat] [])
    = (Ok check', w')
    ∧ heap w' = [mkGaugeVec "net" "traffic" ["if"] ∅; diskVec]
    ∧ registry w' = filter (λ h', h' ≠ 1%nat) [0%nat; 1%nat]
    ∧ ∀ h', h' ∈ [0%nat; 1%nat] → h' ≠ 1%nat → h' ∈ registry w'.
Proof.
  apply (teardown_leaves_others (diskCheck "Gauge" 60 0 [] [] (Some 1%nat))
           (mkWorld [mkGaugeVec "net" "traffic" ["if"] ∅; diskVec] [0%nat; 1%nat] [])
           1%nat diskVec); [reflexivity | reflexivity | reflexivity | |].
  - split; [by repeat constructor|]. apply (bool_decide_unpack _). vm_compute. exact I.
  - apply (bool_decide_unpack _). vm_compute. exact I.
Defined.

(** ** A pass, step by step *)

Section PassRules.
Context {L : Libraries}.

Lemma wp_forRange_elem {A} (body : A → M unit) (I E : World → Prop) (xs : list A) :
  (∀ x w, x ∈ xs → I w → wp (body x) w (loopPost (λ _, I) E)) →
  ∀ w, I w → wp (forRange xs body) w (loopPost (λ _, I) E).
Proof.
  induction xs as [|x xs IH]; intros Hbody w Hw; [done|].
  cbn [forRange]. apply wp_bind. eapply wp_mono; [apply Hbody; [left|done]|].
  intros [[]|p] w' Hw'; [|done]. apply IH; [|done].
  intros x' w0 Hx'. apply Hbody. by right.
Qed.

(** Reconciliation, for any property of the sink that survives the
    deletion of a stale child of the check's own vector. *)
Lemma wp_cleanup (check : Check) (I : World → Prop) (w : World) :
  (∀ w1 w2, I w1 → sameSink w1 w2 → I w2) →
  (∀ w1 h v l lg,
     I w1 → metric check = Some h → heap w1 !! h = Some v →
     l ∈ resultLast check → l ∉ resultCurrent check →
     I (mkWorld (<[h := setMetrics v (delete l (metrics v))]> (heap w1)) (registry w1) lg)) →
  I w → wp (cleanupUnusedDimensions check) w (λ _ w', I w').
Proof.
  intros Hsink Hdel Hw. unfold cleanupUnusedDimensions. apply wp_bind, wp_logf.
  assert (∀ w1 lg, I w1 → I (mkWorld (heap w1) (registry w1) lg)) as Hlog.
  { intros w1 lg Hw1. by apply (Hsink w1). }
  destruct (0 <? _)%nat; [|by apply Hlog].
  eapply wp_mono.
  - apply (wp_forRange_elem _ I I); [|by apply Hlog].
    intros l w1 Hl Hw1. rewrite stale_not_elem_of. case_bool_decide as Hstale; [|done].
    apply wp_bind, wp_logf. destruct (String.eqb _ "Gauge"); [|by apply Hlog].
    apply wp_bind. unfold wp at 1, Delete, asGaugeVec, bind.
    destruct (metric check) as [h|] eqn:Hm; [|by apply Hlog].
    cbn [heap]. destruct (heap w1 !! h) as [v|] eqn:Hh; [|by apply Hlog].
    destruct (_ && _); simpl.
    + by eapply Hdel.
    + by apply Hlog, Hlog.
  - by intros [[]|perr] w1.
Qed.

(** A pass that runs the check, for an invariant [J] of the check and the
    world that recording and reconciliation keep; [E] is what a panic may
    leave behind. *)
Lemma wp_tick (J : Check → World → Prop) (E : World → Prop)
    (now : Z) (p : Process) (check : Check) (w : World) :
  (∀ s w1 w2, J s w1 → sameSink w1 w2 → J s w2) →
  (∀ s w1, J s w1 → E w1) →
  (∀ s value labels w1,
     J s w1 → wp (registerMetricsForCheck s value labels) w1 (loopPost J E)) →
  (∀ s w1, J s w1 → wp (cleanupUnusedDimensions s) w1 (λ _ w2, J s w2)) →
  (∀ s w1 n, J s w1 → J (setNextrun s n) w1) →
  now > nextrun check →
  J (setResults check (resultCurrent check) []) w →
  wp (tick now p check) w (loopPost J E).
Proof.
  intros Hsink HE Hreg Hclean Hnext Hnow H0. unfold tick.
  rewrite (proj2 (Z.gtb_gt _ _)) by done.
  assert (∀ s w1 lg, J s w1 → J s (mkWorld (heap w1) (registry w1) lg)) as Hlog.
  { intros s w1 lg Hw1. by apply (Hsink s w1). }
  apply wp_bind, wp_logf. apply wp_bind. unfold wp at 1.
  rewrite (surjective_pairing (runBashScript _ p _)).
  match goal with
  | |- context [runBashScript ?c p ?w0] =>
      destruct (runBashScript_returns c p w0) as (err & -> & _);
      pose proof (proj1 (runBashScript_warned c p w0)) as Hrun
  end.
  cbv beta iota. set (result := match runErr p with None => stdout p | Some _ => "" end).
  clearbody result. set (w1 := (runBashScript _ p _).2) in *. clearbody w1.
  assert (J (setResults check (resultCurrent check) []) w1) as H1.
  { eapply Hsink; [|exact Hrun]. by apply Hlog. }
  clear Hrun.
  assert (∀ c1 w2, J c1 w2 →
            wp (cleanupUnusedDimensions c1 ;;
                logf DebugLevel "Finished check %s and schedule next run for %s"
                     [AStr (Name (setNextrun c1 (int64 (nextrun c1 + int64 (Interval c1)))));
                      AInt (nextrun (setNextrun c1 (int64 (nextrun c1 + int64 (Interval c1)))))] ;;
                ret (setNextrun c1 (int64 (nextrun c1 + int64 (Interval c1))))) w2
               (loopPost J E)) as Hend.
  { intros c1 w2 Hw2. apply wp_bind. eapply wp_mono; [by apply Hclean|].
    intros [[]|perr] w3 Hw3; [|by eapply HE].
    unfold wp, bind, logf, ret. simpl. by apply Hnext, Hlog. }
  destruct err as [err|].
  - apply wp_bind. unfold bind at 1, logf at 1, ret at 1, wp at 1. simpl.
    apply (Hend (setResults check (resultCurrent check) [])). by apply Hlog.
  - apply wp_bind. eapply wp_mono.
    + apply (wp_forRangeS _ J E); [|exact H1].
      intros s line w2 Hw2. destruct (negb _); [|done].
      apply wp_bind, wp_lift.
      destruct (convertResult line) as [[value labels]|perr]; [|by eapply HE].
      by apply Hreg.
    + intros [c1|perr] w2 Hw2; [|done]. by apply (Hend c1).
Qed.

End PassRules.

(** ** What a pass may delete *)

Section Survival.
Context {L : Libraries}.

(** The five ways [registerMetricsForCheck] can go. *)
Lemma register_cases (check : Check) (value : float) (labels : Labels) (w : World) :
  let check1 := setResults check (resultLast check) (resultCurrent check ++ [labels]) in
  let r := registerMetricsForCheck check value labels w in
  (MetricType check ≠ "Gauge" ∧ sameSink w r.2
   ∧ ∃ m, r.1 = Ok (setMetric check1 m) ∧ (m = None ∨ m = metric check))
  ∨ (MetricType check = "Gauge"
     ∧ ∃ h, metric check = Some h
            ∧ ((∃ p, r = (Panic p, w))
               ∨ ∃ v, heap w !! h = Some v ∧ labelsFit v labels = true
                      ∧ r.1 = Ok check1
                      ∧ heap r.2 = <[h := setMetrics v (<[labels := value]> (metrics v))]> (heap w)
                      ∧ registry r.2 = registry w))
  ∨ (MetricType check = "Gauge" ∧ metric check = None
     ∧ ∃ v0, fqName v0 = Name check
             ∧ ((∃ p, r.1 = Panic p ∧ heap r.2 = (heap w ++ [v0])%list
                      ∧ (registry r.2 = registry w
                         ∨ registry r.2 = (registry w ++ [length (heap w)])%list))
                ∨ (r.1 = Ok (setMetric check1 (Some (length (heap w))))
                   ∧ heap r.2 = (heap w ++ [setMetrics v0 {[labels := value]}])%list
                   ∧ registry r.2 = (registry w ++ [length (heap w)])%list
                   ∧ nameRegistered (mkWorld (heap w ++ [v0]) (registry w) (logs w))
                                    (Name check) = false))).
Proof.
  intros check1 r. subst r. destruct (decide (MetricType check = "Gauge")) as [Ht|Ht].
  - right. destruct (metric check) as [h|] eqn:Hm.
    + left. split; [done|]. exists h. split; [done|].
      rewrite (register_existing _ _ _ _ h) by done.
      destruct (heap w !! h) as [v|]; [|left; by eexists].
      destruct (labelsFit v labels) eqn:Hfit; [|left; by eexists].
      right. by exists v.
    + right. do 2 (split; [done|]). rewrite register_first by done. cbv zeta.
      exists (mkGaugeVec (Name check) (Help check) (convertMapKeysToSlice labels) ∅).
      split; [done|].
      destruct (negb _); [left; eexists; by eauto|].
      destruct (nameRegistered _ _) eqn:Hreg; [left; eexists; by eauto|].
      destruct (labelsFit _ labels); [right; by eauto|left; eexists; by eauto].
  - left. split; [done|]. apply String.eqb_neq in Ht.
    unfold registerMetricsForCheck, bind, ret, logf. simpl. rewrite Ht.
    destruct (String.eqb (MetricType check) "Counter");
      [|destruct (String.eqb (MetricType check) "Histogram");
        [|destruct (String.eqb (MetricType check) "Summary")]]; simpl.
    1-3: split; [done|]; exists (metric check); split; [by destruct check|by right].
    split; [done|]. exists None. split; [done|by left].
Qed.

Lemma keeps_refl own dead w : keeps own dead w w.
Proof. by repeat split. Qed.

Lemma keeps_sameSink own dead w w1 w2 :
  keeps own dead w w1 → sameSink w1 w2 → keeps own dead w w2.
Proof.
  intros (Hlen & Hvec & Hchild) [Hheap _]. unfold keeps, hasChild in *.
  rewrite Hheap. by repeat split.
Qed.

Lemma keeps_alloc own dead w w1 x reg lg :
  keeps own dead w w1 → keeps own dead w (mkWorld (heap w1 ++ [x]) reg lg).
Proof.
  intros (Hlen & Hvec & Hchild). unfold keeps, hasChild in *. simpl. split; [|split].
  - rewrite length_app. lia.
  - intros h v Hh Hown. by apply lookup_app_l_Some, Hvec.
  - intros h l Hl Hdead. destruct (Hchild h l Hl Hdead) as (v & Hv & Hc).
    exists v. split; [by apply lookup_app_l_Some|done].
Qed.

Lemma keeps_insert own dead w w1 h v0 v' reg lg :
  keeps own dead w w1 → heap w1 !! h = Some v0 →
  own = Some h ∨ (length (heap w) ≤ h)%nat →
  (∀ l, is_Some (metrics v0 !! l) → ¬ dead l → is_Some (metrics v' !! l)) →
  keeps own dead w (mkWorld (<[h := v']> (heap w1)) reg lg).
Proof.
  intros (Hlen & Hvec & Hchild) Hh Hown Hsub. unfold keeps, hasChild in *. simpl.
  split; [by rewrite length_insert|]. split.
  - intros h' v Hh' Hne. rewrite list_lookup_insert_ne; [by apply Hvec|].
    intros ->. destruct Hown as [->|Hge]; [done|].
    apply lookup_lt_Some in Hh'. lia.
  - intros h' l Hl Hdead. destruct (Hchild h' l Hl Hdead) as (v & Hv & Hc).
    destruct (decide (h = h')) as [<-|Hne].
    + exists v'. rewrite list_lookup_insert_eq by (by eapply lookup_lt_Some).
      split; [done|]. apply Hsub; [|done]. by rewrite Hh in Hv; injection Hv as ->.
    + exists v. by rewrite list_lookup_insert_ne.
Qed.

(** The invariant of a pass of [check] started in [w]: what is kept since
    [w], that [resultLast] is the list the check came with, and that its
    handle is the one it came with or one allocated since. *)
Let surviving (check : Check) (w : World) (s : Check) (w1 : World) : Prop :=
  keeps (metric check) (λ l, l ∈ resultCurrent check) w w1
  ∧ resultLast s = resultCurrent check
  ∧ ∀ h, metric s = Some h → metric check = Some h ∨ (length (heap w) ≤ h)%nat.

Lemma register_surviving check w s value labels w1 :
  surviving check w s w1 →
  wp (registerMetricsForCheck s value labels) w1
     (loopPost (surviving check w)
               (keeps (metric check) (λ l, l ∈ resultCurrent check) w)).
Proof.
  intros (Hkeeps & Hlast & Hown). unfold wp, loopPost.
  pose proof (register_cases s value labels w1) as Hcases. cbv zeta in Hcases.
  destruct (registerMetricsForCheck s value labels w1) as [r [hp rg lg]].
  simpl in Hcases. simpl.
  destruct Hcases
    as [(_ & Hsink & m & -> & Hm)
       |[(_ & h & Hh & [[p [= -> <-]]|(v & Hv & _ & -> & -> & ->)])
        |(_ & Hnone & v0 & _ & [(p & -> & -> & _)|(-> & -> & _)])]].
  - split; [by eapply keeps_sameSink|]. split; [done|]. simpl.
    intros h ->. destruct Hm as [?|Hm]; [done|]. by apply Hown.
  - done.
  - split; [|done].
    eapply keeps_insert; [done..|by apply Hown|]. intros l [x Hx] _. simpl.
    destruct (decide (labels = l)) as [->|Hne];
      [by rewrite lookup_insert_eq|by rewrite lookup_insert_ne].
  - by apply keeps_alloc.
  - split; [by apply keeps_alloc|]. split; [done|].
    intros h [= <-]. right. by destruct Hkeeps.
Qed.

Lemma cleanup_surviving check w s w1 :
  surviving check w s w1 →
  wp (cleanupUnusedDimensions s) w1 (λ _ w2, surviving check w s w2).
Proof.
  intros Hs. apply (wp_cleanup s (surviving check w s)); [| |done].
  - intros w2 w3 (Hk & ? & ?) Hsink. split; [by eapply keeps_sameSink|done].
  - intros w2 h v l lg (Hk & Hlast & Hown) Hm Hh Hl _. split; [|done].
    eapply keeps_insert; [done..|by apply Hown|].
    intros l' [x Hx] Hdead. simpl. rewrite lookup_delete_ne; [by eexists|].
    intros ->. apply Hdead. by rewrite <- Hlast.
Qed.

(** X8. Whatever a pass of the loop ends in, it changes no vector but
    the check's own, and deletes a child only if its label-set was
    reported in the run before: a child whose label-set is not in the
    [resultCurrent] the pass starts from is still there afterwards. *)
Theorem tick_deletes_only_reported (now : Z) (p : Process) (check : Check) (w : World) :
  (∀ h v, heap w !! h = Some v → metric check ≠ Some h →
          heap (tick now p check w).2 !! h = Some v)
  ∧ (∀ h l, hasChild w h l → l ∉ resultCurrent check →
            hasChild (tick now p check w).2 h l).
Proof.
  enough (keeps (metric check) (λ l, l ∈ resultCurrent check) w (tick now p check w).2)
    as (_ & ? & ?) by done.
  destruct (decide (now > nextrun check)) as [Hnow|Hnow].
  - pose proof (wp_tick (surviving check w)
                  (keeps (metric check) (λ l, l ∈ resultCurrent check) w)
                  now p check w) as Hwp.
    unfold wp, loopPost in Hwp.
    destruct ((tick now p check w).1); apply Hwp; try done.
    all: try (intros s w1 w2 (Hk & ? & ?) Hsink; split; [by eapply keeps_sameSink|done]).
    all: try (by intros s w1 (Hk & _)).
    all: try (intros; by apply register_surviving).
    all: try (intros; by apply cleanup_surviving).
    all: split; [apply keeps_refl|]; split; [done|]; intros h Hh; by left.
  - rewrite tick_skip by lia. apply keeps_refl.
Qed.

End Survival.

(** ** What a pass leaves in the sink *)

Section Live.
Context {L : Libraries}.





End Live.


(** ** A whole run and the rest of the sink *)

Section Isolation.
Context {L : Libraries}.











End Isolation.


(** ** Passes that record nothing, and what a pass records *)

Section Records.
Context {L : Libraries}.

(** The body of the loop over [resultLine]. *)
Let step (check : Check) (line : string) : M Check :=
  if negb (String.eqb line "") then
    do '(value, labels) <- lift (convertResult line);
    registerMetricsForCheck check value labels
  else ret check.

Lemma runBashScript_error (check : Check) (p : Process) (w : World) (e : string) :
  runErr p = Some e → ∃ msg, (runBashScript check p w).1 = Ok ("", Some msg).
Proof.
  intros He. unfold runBashScript, bind, logf, ret. simpl. rewrite He.
  destruct (negb _); [|destruct (negb _)]; by eexists.
Qed.

Lemma cleanup_empty_current (check : Check) (w : World) :
  resultCurrent check = [] →
  (cleanupUnusedDimensions check w).1 = Ok tt
  ∧ warned 0 w (cleanupUnusedDimensions check w).2.
Proof.
  intros Hcur. unfold cleanupUnusedDimensions, bind, logf, ret. rewrite Hcur. simpl.
  split; [done|]. by apply (warned_log 0 w [_]).
Qed.

Lemma lines_all_empty (lines : list string) (s : Check) (w : World) :
  filter (λ line, line ≠ "") lines = [] → forRangeS lines step s w = (Ok s, w).
Proof.
  induction lines as [|line lines IH]; [done|].
  destruct (decide (line = "")) as [->|Hne].
  - rewrite filter_cons_False by (by intros ?). intros Hnil.
    cbn [forRangeS]. unfold bind, step. simpl. by apply IH.
  - by rewrite filter_cons_True.
Qed.

(** X11. A pass whose script fails, or succeeds and prints no non-empty
    line, completes without touching the sink: the check keeps its handle,
    [resultLast] takes the old [resultCurrent], [resultCurrent] is empty and
    [nextrun] moves on; the failure is logged as one warning. *)
Theorem tick_without_observation (now : Z) (p : Process) (check : Check) (w : World) :
  now > nextrun check →
  match runErr p with Some _ => True | None => observations (stdout p) = [] end →
  (tick now p check w).1
  = Ok (setNextrun (setResults check (resultCurrent check) [])
                   (int64 (nextrun check + int64 (Interval check))))
  ∧ warned (match runErr p with Some _ => 1 | None => 0 end) w (tick now p check w).2.
Proof.
  intros Hnow Hnone.
  enough (∃ w', tick now p check w
                = (Ok (setNextrun (setResults check (resultCurrent check) [])
                                  (int64 (nextrun check + int64 (Interval check)))), w')
                ∧ warned (match runErr p with Some _ => 1 | None => 0 end) w w')
    as (w' & -> & ?) by done.
  unfold tick. rewrite (proj2 (Z.gtb_gt _ _)) by done.
  unfold bind at 1, logf at 1. unfold bind at 1.
  set (check0 := setResults check (resultCurrent check) []).
  set (w0 := mkWorld _ _ _).
  assert (warned 0 w w0) as H0 by (by apply (warned_log 0 w [_])).
  pose proof (runBashScript_warned check0 p w0) as H1.
  assert (∀ w2 n, warned n w w2 →
            ∃ w', (cleanupUnusedDimensions check0 ;;
                   logf DebugLevel "Finished check %s and schedule next run for %s"
                        [AStr (Name check0); AInt (int64 (nextrun check + int64 (Interval check)))] ;;
                   ret (setNextrun check0 (int64 (nextrun check + int64 (Interval check))))) w2
                  = (Ok (setNextrun check0 (int64 (nextrun check + int64 (Interval check)))), w')
                  ∧ warned n w w') as Hend.
  { intros w2 n Hw2. unfold bind at 1.
    destruct (cleanup_empty_current check0 w2 eq_refl) as [Hr Hw3].
    destruct (cleanupUnusedDimensions check0 w2) as [r w3]. simpl in Hr, Hw3. subst r.
    unfold bind, logf, ret. eexists. split; [done|].
    rewrite <- (Nat.add_0_r n). eapply warned_trans; [|by apply (warned_log 0 w3 [_])].
    rewrite <- (Nat.add_0_r n). by eapply warned_trans. }
  destruct (runErr p) as [e|] eqn:He.
  - destruct (runBashScript_error check0 p w0 e He) as [msg Hmsg].
    destruct (runBashScript check0 p w0) as [r w1]. simpl in Hmsg, H1. subst r.
    cbv beta iota. unfold bind at 1. unfold bind at 1, logf at 1, ret at 1.
    apply Hend. change 1%nat with (0 + 0 + 1)%nat.
    eapply warned_trans; [by eapply warned_trans|]. by apply (warned_log 1 w1 [_]).
  - destruct (runBashScript_returns check0 p w0) as (err & Hres & Herr).
    rewrite He in Hres. rewrite (Herr He) in Hres.
    destruct (runBashScript check0 p w0) as [r w1]. simpl in Hres, H1. subst r.
    cbv beta iota. unfold bind at 1. fold step.
    rewrite lines_all_empty by exact Hnone.
    apply Hend. change 0%nat with (0 + 0)%nat. by eapply warned_trans.
Qed.

Lemma register_results (s s' : Check) (value : float) (labels : Labels) (w : World) :
  (registerMetricsForCheck s value labels w).1 = Ok s' →
  resultLast s' = resultLast s ∧ resultCurrent s' = (resultCurrent s ++ [labels])%list.
Proof.
  pose proof (register_cases s value labels w) as Hcases. cbv zeta in Hcases.
  destruct (registerMetricsForCheck s value labels w) as [r w1]. simpl in *.
  intros ->.
  destruct Hcases
    as [(_ & _ & m & [= ->] & _)
       |[(_ & h & _ & [[p [= ? _]]|(v & _ & _ & [= ->] & _)])
        |(_ & _ & v0 & _ & [(p & ? & _)|([= ->] & _)])]]; done.
Qed.

Lemma lines_record (lines : list string) (s s' : Check) (w : World) :
  (forRangeS lines step s w).1 = Ok s' →
  resultLast s' = resultLast s
  ∧ ∃ ls, resultCurrent s' = (resultCurrent s ++ ls)%list
          ∧ Forall2 (λ line l, ∃ f, convertResult line = Ok (f, l))
                    (filter (λ line, line ≠ "") lines) ls.
Proof.
  revert s w. induction lines as [|line lines IH]; intros s w.
  - intros [= <-]. split; [done|]. exists []. by rewrite app_nil_r.
  - cbn [forRangeS]. unfold bind at 1.
    destruct (step s line w) as [[s1|perr] w1] eqn:Hstep; [|done].
    intros Hok. destruct (IH s1 w1 Hok) as (Hlast & ls & Hcur & Hall).
    unfold step in Hstep. destruct (String.eqb_spec line "") as [->|Hline]; simpl in Hstep.
    + injection Hstep as <- <-. rewrite filter_cons_False by (by intros ?).
      split; [done|]. by exists ls.
    + unfold bind, lift in Hstep.
      destruct (convertResult line) as [[f l]|perr] eqn:Hconv; [|done].
      destruct (register_results s s1 f l w) as [Hl1 Hc1]; [by rewrite Hstep|].
      rewrite filter_cons_True by done. split; [congruence|].
      exists (l :: ls). split; [by rewrite Hcur, Hc1, <- app_assoc|].
      constructor; [by exists f|done].
Qed.

(** X12. After a pass that ran the script and completed, [resultLast] is
    the [resultCurrent] the pass started from, and [resultCurrent] holds,
    in order, the label-set of every non-empty line of the script's
    output; it is empty when the script failed. *)
Theorem tick_records (now : Z) (p : Process) (check check' : Check) (w : World) :
  now > nextrun check → (tick now p check w).1 = Ok check' →
  resultLast check' = resultCurrent check
  ∧ match runErr p with
    | Some _ => resultCurrent check' = []
    | None => Forall2 (λ line l, ∃ f, convertResult line = Ok (f, l))
                      (observations (stdout p)) (resultCurrent check')
    end.
Proof.
  intros Hnow. unfold tick. rewrite (proj2 (Z.gtb_gt _ _)) by done.
  unfold bind at 1, logf at 1. unfold bind at 1.
  set (check0 := setResults check (resultCurrent check) []).
  set (w0 := mkWorld _ _ _).
  assert (∀ c1 w2,
            ((cleanupUnusedDimensions c1 ;;
              logf DebugLevel "Finished check %s and schedule next run for %s"
                   [AStr (Name c1); AInt (int64 (nextrun c1 + int64 (Interval c1)))] ;;
              ret (setNextrun c1 (int64 (nextrun c1 + int64 (Interval c1))))) w2).1
            = Ok check' →
            resultLast check' = resultLast c1 ∧ resultCurrent check' = resultCurrent c1)
    as Hend.
  { intros c1 w2. unfold bind at 1.
    destruct (cleanupUnusedDimensions c1 w2) as [[[]|perr] w3]; [|done].
    unfold bind, logf, ret. simpl. by intros [= <-]. }
  destruct (runBashScript_returns check0 p w0) as (err & Hres & Herr).
  destruct (runErr p) as [e|] eqn:He.
  - destruct (runBashScript_error check0 p w0 e He) as [msg Hmsg].
    destruct (runBashScript check0 p w0) as [r w1]. simpl in Hmsg. subst r.
    cbv beta iota. unfold bind at 1. unfold bind at 1, logf at 1, ret at 1.
    intros Hok. by destruct (Hend _ _ Hok) as [-> ->].
  - rewrite (Herr eq_refl) in Hres.
    destruct (runBashScript check0 p w0) as [r w1]. simpl in Hres. subst r.
    cbv beta iota. unfold bind at 1. fold step.
    destruct (forRangeS _ step check0 w1) as [[c1|perr] w2] eqn:Hloop; [|done].
    intros Hok. destruct (Hend _ _ Hok) as [-> ->].
    destruct (lines_record _ _ _ _ (f_equal fst Hloop)) as (Hlast & ls & Hcur & Hall).
    split; [done|]. by rewrite Hcur.
Qed.

End Records.

Lemma tick_without_observation_witness :
  (tick (L := demo) 61 (mkProcess "" "timeout" (Some "exit status 1"))
        (diskCheck "Gauge" 60 60 [] [sda; sdb] (Some 0%nat)) diskWorld).1
  = Ok (setNextrun (setResults (diskCheck "Gauge" 60 60 [] [sda; sdb] (Some 0%nat))
                               [sda; sdb] [])
                   (int64 (60 + int64 60)))
  ∧ warned 1 diskWorld
           (tick (L := demo) 61 (mkProcess "" "timeout" (Some "exit status 1"))
                 (diskCheck "Gauge" 60 60 [] [sda; sdb] (Some 0%nat)) diskWorld).2.
Proof.
  apply (tick_without_observation (L := demo) 61
           (mkProcess "" "timeout" (Some "exit status 1"))
           (diskCheck "Gauge" 60 60 [] [sda; sdb] (Some 0%nat)) diskWorld);
    [reflexivity | exact I].
Defined.

Lemma tick_records_witness :
  resultLast (diskCheck "Gauge" 60 60 [] [sda; sdb] (Some 0%nat)) = []
  ∧ Forall2 (λ line l, ∃ f, convertResult (L := demo) line = Ok (f, l))
            (observations diskOutput)
            (resultCurrent (diskCheck "Gauge" 60 60 [] [sda; sdb] (Some 0%nat))).
Proof.
  apply (tick_records (L := demo) 5 (mkProcess diskOutput "" None)
           (diskCheck "Gauge" 60 0 [] [] None)
           (diskCheck "Gauge" 60 60 [] [sda; sdb] (Some 0%nat)) emptyWorld);
    [reflexivity | vm_compute; reflexivity].
Defined.
